(** * Version history service of the Omnify GUI

    A shallow embedding of [src/server/services/versionService.ts]:
    the snapshot normaliser ([propertyToSnapshot], [schemasToSnapshot]),
    the snapshot-to-YAML conversion ([snapshotToYaml]) and the service
    operations built on the version store ([createVersion],
    [getPendingChanges], [discardChanges] and the read delegations).

    The data handled by the service is dynamically typed (parsed YAML), so
    it is embedded as JavaScript values; objects keep the enumeration
    order of their own properties. *)

From Stdlib Require Import Ascii DecimalString.
From stdpp Require Import base strings list gmap.

Set Warnings "-register-all".

(** ** JavaScript values *)

Module JS.

(** Plain data as the YAML parser yields it.  Numbers are the integers
    (counts, lengths, precisions); the service never computes with a number
    it reads, it only tests truthiness and copies.  An object is the list
    of its own enumerable properties in enumeration order. *)
Inductive value : Type :=
  | VUndef
  | VNull
  | VBool (b : bool)
  | VNum (n : Z)
  | VStr (s : string)
  | VArr (l : list value)
  | VObj (o : list (string * value)).

Abbreviation obj := (list (string * value)).

(** What a [throw] carries.  [Unsupported] marks an implicit coercion
    that this embedding does not evaluate (a relational comparison whose
    operand is a non-empty string, an array or an object). *)
Inductive error : Type :=
  | TypeError (msg : string)
  | Error (msg : string)
  | Unsupported.

Inductive result (A : Type) : Type :=
  | Ok (a : A)
  | Throw (e : error).
Arguments Ok {A} a.
Arguments Throw {A} e.

#[global] Instance result_ret : MRet result := fun _ a => Ok a.
#[global] Instance result_bind : MBind result := fun _ _ f r =>
  match r with Ok a => f a | Throw e => Throw e end.
#[global] Instance result_fmap : FMap result := fun _ _ f r =>
  match r with Ok a => Ok (f a) | Throw e => Throw e end.

Definition is_Ok {A} (r : result A) : bool :=
  match r with Ok _ => true | Throw _ => false end.

(** [x === undefined], [x == null] (null or undefined), truthiness. *)
Definition is_undefined (v : value) : bool :=
  match v with VUndef => true | _ => false end.

Definition nullish (v : value) : bool :=
  match v with VUndef | VNull => true | _ => false end.

Definition truthy (v : value) : bool :=
  match v with
  | VUndef | VNull => false
  | VBool b => b
  | VNum n => negb (n =? 0)%Z
  | VStr s => negb (String.eqb s "")
  | VArr _ | VObj _ => true
  end.

(** [v === true], [v === false], [v !== 'lit']. *)
Definition is_bool (b : bool) (v : value) : bool :=
  match v with VBool b' => Bool.eqb b b' | _ => false end.

Definition is_str (s : string) (v : value) : bool :=
  match v with VStr s' => String.eqb s s' | _ => false end.

(** Decimal rendering of an array position, as template literals and
    index keys print it. *)
Definition string_of_nat (n : nat) : string :=
  NilZero.string_of_uint (Nat.to_uint n).

(** The array position a key denotes, if it is a canonical index. *)
Definition index_of_key (k : string) : option nat :=
  match NilZero.uint_of_string k with
  | Some u =>
      let n := Nat.of_uint u in
      if String.eqb (string_of_nat n) k then Some n else None
  | None => None
  end.

Definition chars (s : string) : list value :=
  (λ c, VStr (String c "")) <$> String.list_ascii_of_string s.

Fixpoint obj_lookup (o : obj) (k : string) : option value :=
  match o with
  | [] => None
  | (k', v) :: o' => if String.eqb k' k then Some v else obj_lookup o' k
  end.

Definition obj_keys (o : obj) : list string := o.*1.

(** Own data property [k] of a non-nullish value; [undefined] when there
    is none.  Arrays and strings own [length] and their positions. *)
Definition own (v : value) (k : string) : value :=
  match v with
  | VObj o => default VUndef (obj_lookup o k)
  | VArr l =>
      if String.eqb k "length" then VNum (Z.of_nat (length l))
      else match index_of_key k with
           | Some i => default VUndef (l !! i)
           | None => VUndef
           end
  | VStr s =>
      if String.eqb k "length" then VNum (Z.of_nat (String.length s))
      else match index_of_key k with
           | Some i => default VUndef (chars s !! i)
           | None => VUndef
           end
  | _ => VUndef
  end.

(** [v.k]: reading a property of [null] or [undefined] throws. *)
Definition get (v : value) (k : string) : result value :=
  if nullish v then Throw (TypeError "Cannot read properties of null or undefined")
  else Ok (own v k).

(** [v?.k] *)
Definition optget (v : value) (k : string) : value :=
  if nullish v then VUndef else own v k.

(** [o[k] = v] on an object under construction: an existing key keeps its
    place, a new key goes last.  Assigning to [__proto__] sets the
    prototype and leaves the own properties as they are.  (Index-like keys,
    which JavaScript enumerates first, are appended like the others: the
    loops below insert keys in the enumeration order of another object,
    where the two orders agree.) *)
Fixpoint obj_put (o : obj) (k : string) (v : value) : obj :=
  match o with
  | [] => [(k, v)]
  | (k', v') :: o' =>
      if String.eqb k' k then (k', v) :: o' else (k', v') :: obj_put o' k v
  end.

Definition obj_set (o : obj) (k : string) (v : value) : obj :=
  if String.eqb k "__proto__" then o else obj_put o k v.

Definition indexed (l : list value) : obj :=
  imap (λ i v, (string_of_nat i, v)) l.

(** [Object.entries(v)]; [Object.keys(v)] is the list of its keys. *)
Definition entries (v : value) : result obj :=
  match v with
  | VUndef | VNull => Throw (TypeError "Cannot convert undefined or null to object")
  | VObj o => Ok o
  | VArr l => Ok (indexed l)
  | VStr s => Ok (indexed (chars s))
  | VBool _ | VNum _ => Ok []
  end.

(** [[...v]]: only arrays and strings are iterable. *)
Definition spread (v : value) : result (list value) :=
  match v with
  | VArr l => Ok l
  | VStr s => Ok (chars s)
  | _ => Throw (TypeError "not iterable")
  end.

(** [v.map(f)] with a callback that may throw: a method call on [null] or
    [undefined] throws, and so does a call of [map] on anything but an
    array (plain data has no callable [map]). *)
Definition array_map (v : value) (f : nat → value → result value) : result (list value) :=
  match v with
  | VArr l => mapM (λ p : nat * value, f p.1 p.2) (imap pair l)
  | _ => Throw (TypeError "map is not a function")
  end.

(** [v > 0] after [ToNumber]: [undefined] is [NaN], [null] and the empty
    string and the empty array are [0], [true] is [1]. *)
Definition gt_zero (v : value) : result bool :=
  match v with
  | VNum n => Ok (0 <? n)%Z
  | VBool b => Ok b
  | VUndef | VNull => Ok false
  | VStr s => if String.eqb s "" then Ok false else Throw Unsupported
  | VArr [] => Ok false
  | VArr (_ :: _) => Throw Unsupported
  | VObj _ => Throw Unsupported
  end.

End JS.
Import JS.

(** ** Snapshot normaliser *)

(** The optional attributes of a property, in the order the source lists
    them. *)
Definition optional_attributes : list string :=
  [ "displayName"; "description"; "nullable"; "unique"; "default"; "length";
    "unsigned"; "precision"; "scale"; "enum"; "relation"; "target";
    "targets"; "morphName"; "onDelete"; "onUpdate"; "mappedBy";
    "inversedBy"; "joinTable"; "owning" ].

(** [...(src.k !== undefined && { k: src.k })] for a non-nullish [src]. *)
Definition spread_defined (src : value) (k : string) : obj :=
  if is_undefined (own src k) then [] else [(k, own src k)].

(** [propertyToSnapshot], lines 79-103. *)
Definition propertyToSnapshot (prop : value) : result value :=
  type ← get prop "type";
  Ok (VObj (("type", type) :: flat_map (spread_defined prop) optional_attributes)).

(** The loop of lines 116-118 over [Object.entries(schema.properties)]. *)
Fixpoint propertiesLoop (es : obj) (properties : obj) : result obj :=
  match es with
  | [] => Ok properties
  | (propName, prop) :: es' =>
      p ← propertyToSnapshot prop;
      propertiesLoop es' (obj_set properties propName p)
  end.

(** The callback of [rawIndexes?.map], lines 125-130. *)
Definition indexSnapshot (idx : value) : result value :=
  columns ← get idx "columns";
  Ok (VObj (("columns", columns)
            :: spread_defined idx "unique" ++ spread_defined idx "name"
            ++ spread_defined idx "type")).

(** The callback of [rawUnique?.map], lines 134-138. *)
Definition uniqueAsIndex (i : nat) (cols : value) : value :=
  VObj [ ("columns", cols); ("unique", VBool true);
         ("name", VStr ("unique_" +:+ string_of_nat i)) ].

(** [v?.map(f) ?? []] *)
Definition optional_map (v : value) (f : nat → value → result value) : result (list value) :=
  if nullish v then Ok [] else array_map v f.

(** [allIndexes], lines 124-141. *)
Definition allIndexes (opts : value) : result (list value) :=
  indexSnapshots ← optional_map (optget opts "indexes") (λ _ idx, indexSnapshot idx);
  uniqueAsIndexes ← optional_map (optget opts "unique") (λ i cols, Ok (uniqueAsIndex i cols));
  Ok (indexSnapshots ++ uniqueAsIndexes).

(** [if (c) o.k = v] *)
Definition assign_if (c : bool) (k : string) (v : value) (o : obj) : obj :=
  if c then obj_set o k v else o.

(** [snapshotOptions], lines 144-152: only non-default values are kept. *)
Definition snapshotOptions (opts : value) (allIndexes : list value) : obj :=
  let o := [] in
  let o := assign_if (is_bool false (optget opts "id")) "id" (VBool false) o in
  let o := assign_if (truthy (optget opts "idType") && negb (is_str "BigInt" (optget opts "idType")))
             "idType" (optget opts "idType") o in
  let o := assign_if (is_bool false (optget opts "timestamps")) "timestamps" (VBool false) o in
  let o := assign_if (is_bool true (optget opts "softDelete")) "softDelete" (VBool true) o in
  let o := assign_if (truthy (optget opts "tableName")) "tableName" (optget opts "tableName") o in
  let o := assign_if (is_bool true (optget opts "translations")) "translations" (VBool true) o in
  let o := assign_if (is_bool true (optget opts "authenticatable")) "authenticatable" (VBool true) o in
  assign_if (0 <? length allIndexes) "indexes" (VArr allIndexes) o.

(** [...(c && { k: v })] *)
Definition spread_if (c : bool) (k : string) (v : value) : obj :=
  if c then [(k, v)] else [].

(** The body of the loop of [schemasToSnapshot], lines 114-160, for one
    raw schema. *)
Definition schemaToSnapshot (schema : value) : result value :=
  rawProperties ← get schema "properties";
  properties ←
    (if truthy rawProperties
     then es ← entries rawProperties; propertiesLoop es []
     else Ok []);
  opts ← get schema "options";
  indexes ← allIndexes opts;
  let options := snapshotOptions opts indexes in
  name ← get schema "name";
  kind ← get schema "kind";
  values ← get schema "values";
  Ok (VObj (("name", name)
            :: ("kind", if nullish kind then VStr "object" else kind)
            :: spread_if (0 <? length (obj_keys properties)) "properties" (VObj properties)
            ++ spread_if (truthy values) "values" values
            ++ spread_if (0 <? length (obj_keys options)) "options" (VObj options))).

(** [schemasToSnapshot], lines 108-164. *)
Fixpoint snapshotLoop (es : obj) (snapshot : obj) : result obj :=
  match es with
  | [] => Ok snapshot
  | (name, schema) :: es' =>
      s ← schemaToSnapshot schema;
      snapshotLoop es' (obj_set snapshot name s)
  end.

Definition schemasToSnapshot (schemas : obj) : result obj :=
  snapshotLoop schemas [].

(** ** Snapshot back to a schema document *)

(** One assignment of [propertySnapshotToYaml], lines 300-319; [enum] and
    [targets] are copied with a spread. *)
Definition yamlAttribute (prop : value) (k : string) : result obj :=
  let v := own prop k in
  if is_undefined v then Ok []
  else if String.eqb k "enum" || String.eqb k "targets"
       then l ← spread v; Ok [(k, VArr l)]
       else Ok [(k, v)].

(** [propertySnapshotToYaml], lines 294-322. *)
Definition propertySnapshotToYaml (prop : value) : result value :=
  type ← get prop "type";
  rest ← mapM (yamlAttribute prop) optional_attributes;
  Ok (VObj (("type", type) :: concat rest)).

Fixpoint yamlPropertiesLoop (es : obj) (properties : obj) : result obj :=
  match es with
  | [] => Ok properties
  | (propName, prop) :: es' =>
      p ← propertySnapshotToYaml prop;
      yamlPropertiesLoop es' (obj_set properties propName p)
  end.

(** The callback of [snapshot.options.indexes.map], lines 364-369. *)
Definition yamlIndex (idx : value) : result value :=
  columns ← get idx "columns";
  cols ← spread columns;
  Ok (VObj (("columns", VArr cols)
            :: spread_defined idx "unique" ++ spread_defined idx "name"
            ++ spread_defined idx "type")).

(** The options block of [snapshotToYaml], lines 354-370, for a truthy
    [snapshot.options]. *)
Definition yamlOptions (options : value) : result obj :=
  let opts := [] in
  let opts := assign_if (is_bool false (own options "id")) "id" (VBool false) opts in
  let opts := assign_if (truthy (own options "idType") && negb (is_str "BigInt" (own options "idType")))
                "idType" (own options "idType") opts in
  let opts := assign_if (is_bool false (own options "timestamps")) "timestamps" (VBool false) opts in
  let opts := assign_if (truthy (own options "softDelete")) "softDelete" (VBool true) opts in
  let opts := assign_if (truthy (own options "tableName")) "tableName" (own options "tableName") opts in
  let opts := assign_if (truthy (own options "translations")) "translations" (VBool true) opts in
  let opts := assign_if (truthy (own options "authenticatable")) "authenticatable" (VBool true) opts in
  let indexes := own options "indexes" in
  if truthy indexes then
    nonEmpty ← gt_zero (own indexes "length");
    if nonEmpty : bool then
      l ← array_map indexes (λ _ idx, yamlIndex idx);
      Ok (obj_set opts "indexes" (VArr l))
    else Ok opts
  else Ok opts.

(** [snapshotToYaml], lines 327-377. *)
Definition snapshotToYaml (snapshot : value) : result value :=
  kind ← get snapshot "kind";
  let result := [] in
  let result := assign_if (is_str "enum" kind) "kind" (VStr "enum") result in
  let result := assign_if (truthy (own snapshot "displayName")) "displayName" (own snapshot "displayName") result in
  let result := assign_if (truthy (own snapshot "singular")) "singular" (own snapshot "singular") result in
  let result := assign_if (truthy (own snapshot "plural")) "plural" (own snapshot "plural") result in
  let result := assign_if (truthy (own snapshot "titleIndex")) "titleIndex" (own snapshot "titleIndex") result in
  let result := assign_if (truthy (own snapshot "group")) "group" (own snapshot "group") result in
  let properties := own snapshot "properties" in
  result ←
    (if truthy properties then
       es ← entries properties;
       if 0 <? length (obj_keys es) then
         ps ← yamlPropertiesLoop es [];
         Ok (obj_set result "properties" (VObj ps))
       else Ok result
     else Ok result);
  let values := own snapshot "values" in
  result ←
    (if truthy values then
       nonEmpty ← gt_zero (own values "length");
       if nonEmpty : bool then
         l ← spread values;
         Ok (obj_set result "values" (VArr l))
       else Ok result
     else Ok result);
  let options := own snapshot "options" in
  if truthy options then
    opts ← yamlOptions options;
    Ok (VObj (assign_if (0 <? length (obj_keys opts)) "options" (VObj opts) result))
  else Ok (VObj result).

(** ** Version records *)

Module Version.

Inductive Action : Type :=
  | schema_added | schema_removed | schema_modified
  | property_added | property_removed | property_modified | property_renamed
  | index_added | index_removed | index_modified
  | option_changed.

Record VersionChange : Type := {
  action : Action;
  schema : string;
  property : option string;
  from : option value;
  to : option value }.

(** [{ action: 'schema_added', schema: name }], lines 207-210 and 256-259. *)
Definition schemaAdded (name : string) : VersionChange :=
  {| action := schema_added; schema := name; property := None;
     from := None; to := None |}.

Record VersionFile : Type := {
  version : Z;
  timestamp : string;
  driver : string;
  migration : option string;
  description : option string;
  changes : list VersionChange;
  snapshot : obj }.

Record VersionSummary : Type := {
  summaryVersion : Z;
  summaryTimestamp : string;
  summaryDriver : string;
  summaryMigration : option string;
  summaryDescription : option string;
  schemaCount : nat;
  changeCount : nat }.

Record VersionDiff : Type := { diffChanges : list VersionChange }.

(** The third argument of the store's [createVersion], lines 224-228. *)
Record VersionMeta : Type := {
  metaDriver : string;
  metaMigration : string;
  metaDescription : option string }.

(** [createVersionStore({ baseDir, maxVersions })] *)
Record StoreOptions : Type := { baseDir : string; maxVersions : nat }.

End Version.
Import Version.

(** ** Collaborators

    The version store, the schema loader and the YAML printer belong to
    other packages ([@famgia/omnify-core], [yaml]); the service is
    embedded over their interfaces. *)

Module Store.

(** The methods of [VersionStore] that the service calls, over the
    persisted state [S] of a store directory. *)
Class VersionStore (S : Type) : Type := {
  listVersions : StoreOptions → S → list VersionSummary;
  readVersion : StoreOptions → S → Z → option VersionFile;
  readLatestVersion : StoreOptions → S → option VersionFile;
  diffVersions : StoreOptions → S → Z → Z → option VersionDiff;
  computeSnapshotDiff : obj → obj → list VersionChange;
  createVersion : StoreOptions → S → obj → list VersionChange → VersionMeta
                  → result VersionFile * S }.

End Store.

(** [loadSchemas] reads a schema directory; [stringify] is the printer
    with the options of lines 408-412; [C] is the type of file contents. *)
Class Files (C : Type) : Type := {
  loadSchemas : string → gmap string C → result obj;
  stringify : value → C }.

(** ** File names *)

(** [s] without its suffix [suf], if it has it. *)
Fixpoint strip_suffix (suf s : string) : option string :=
  if String.eqb s suf then Some ""
  else match s with
       | "" => None
       | String c s' => String c <$> strip_suffix suf s'
       end.

(** [f.endsWith(suf)] *)
Definition endsWith (f suf : string) : bool :=
  bool_decide (is_Some (strip_suffix suf f)).

(** [f.endsWith('.yaml') || f.endsWith('.yml')], line 399. *)
Definition isYamlFile (f : string) : bool :=
  endsWith f ".yaml" || endsWith f ".yml".

(** [f.replace(/\.ya?ml$/, '')], lines 400 and 421. *)
Definition schemaNameOf (f : string) : string :=
  match strip_suffix ".yaml" f with
  | Some name => name
  | None => default f (strip_suffix ".yml" f)
  end.

(** [join(schemasDir, entry)] for an entry name of the directory. *)
Definition join (dir entry : string) : string := dir +:+ "/" +:+ entry.

(** ** Migration names *)

(** [iso.replace(/[-:T]/g, '')] *)
Fixpoint removeSeparators (iso : string) : string :=
  match iso with
  | "" => ""
  | String c s =>
      if bool_decide (c ∈ ["-"; ":"; "T"]%char) then removeSeparators s
      else String c (removeSeparators s)
  end.

(** Lines 220-221. *)
Definition migrationName (iso : string) : string :=
  String.substring 0 14 (removeSeparators iso) +:+ "_omnify_migration".

(** ** The service *)

Section Service.

Context {S C : Type} `{!Store.VersionStore S} `{!Files C}.

(** What the operations act on: the persisted state of the version
    store, the entries of the schemas directory (regular files, by entry
    name), whether that directory exists, the clock reading of
    [new Date().toISOString()], and the input and output attempted so
    far. *)
Inductive Event : Type :=
  | StoreAccess (method : string)
  | LoadSchemas (dir : string)
  | Readdir (dir : string)
  | WriteFile (path : string)
  | Unlink (path : string).

Record World : Type := {
  versions : S;
  files : gmap string C;
  directory : bool;
  clock : string;
  trace : list Event }.

Definition log (e : Event) (w : World) : World :=
  {| versions := versions w; files := files w; directory := directory w;
     clock := clock w; trace := trace w ++ [e] |}.

Definition setFiles (fs : gmap string C) (w : World) : World :=
  {| versions := versions w; files := fs; directory := directory w;
     clock := clock w; trace := trace w |}.

Definition setVersions (vs : S) (w : World) : World :=
  {| versions := vs; files := files w; directory := directory w;
     clock := clock w; trace := trace w |}.

(** Computations that read and change the world and may throw; a throw
    leaves the effects performed before it in place. *)
Definition M (A : Type) : Type := World → result A * World.

#[local] Instance M_ret : MRet M := λ _ a w, (Ok a, w).
#[local] Instance M_bind : MBind M := λ _ _ f m w,
  match m w with
  | (Ok a, w') => f a w'
  | (Throw e, w') => (Throw e, w')
  end.

Definition throw {A} (e : error) : M A := λ w, (Throw e, w).
Definition lift {A} (r : result A) : M A := λ w, (r, w).

(** *** Input and output *)

Definition io_loadSchemas (dir : string) : M obj :=
  λ w, (loadSchemas dir (files w), log (LoadSchemas dir) w).

(** The error with which [fs/promises] rejects when a path does not
    exist. *)
Definition enoent (syscall path : string) : error :=
  Error ("ENOENT: no such file or directory, " +:+ syscall +:+ " '" +:+ path +:+ "'").

(** [readdir(dir)]: the entry names, or [ENOENT] when there is no such
    directory. *)
Definition io_readdir (dir : string) : M (list string) :=
  λ w, (if directory w then Ok (map_to_list (files w)).*1
        else Throw (enoent "scandir" dir),
        log (Readdir dir) w).

(** [writeFile(join(dir, entry), content, 'utf-8')]: creates or replaces
    the file; [ENOENT] when the directory does not exist. *)
Definition io_writeFile (dir entry : string) (content : C) : M unit :=
  λ w, if directory w
       then (Ok (), log (WriteFile (join dir entry))
                      (setFiles (<[entry := content]> (files w)) w))
       else (Throw (enoent "open" (join dir entry)), log (WriteFile (join dir entry)) w).

(** [unlink(join(dir, entry))]: removes the file; [ENOENT] when there is
    no such file. *)
Definition io_unlink (dir entry : string) : M unit :=
  λ w, if directory w && bool_decide (is_Some (files w !! entry))
       then (Ok (), log (Unlink (join dir entry)) (setFiles (delete entry (files w)) w))
       else (Throw (enoent "unlink" (join dir entry)), log (Unlink (join dir entry)) w).

Definition io_now : M string := λ w, (Ok (clock w), w).

Definition store_read {A} (method : string) (f : S → A) : M A :=
  λ w, (Ok (f (versions w)), log (StoreAccess method) w).

Definition store_createVersion (opts : StoreOptions) (snap : obj)
    (chs : list VersionChange) (meta : VersionMeta) : M VersionFile :=
  λ w, let '(r, vs) := Store.createVersion opts (versions w) snap chs meta in
       (r, log (StoreAccess "createVersion") (setVersions vs w)).

(** *** Module state, lines 20-39 *)

Record Service : Type := {
  store : option StoreOptions;
  schemasDir : option string }.

Definition uninitialised : Service := {| store := None; schemasDir := None |}.

Definition initVersionStore (baseDir schemasDirPath : string) : Service :=
  {| store := Some {| baseDir := baseDir; maxVersions := 100 |};
     schemasDir := Some schemasDirPath |}.

Definition getStore (sv : Service) : M StoreOptions :=
  match store sv with
  | None => throw (Error "Version store not initialized. Call initVersionStore first.")
  | Some s => mret s
  end.

(** [if (!schemasDir) throw ...]: [null] and the empty string are falsy. *)
Definition requireSchemasDir (sv : Service) : M string :=
  match schemasDir sv with
  | Some dir =>
      if String.eqb dir "" then throw (Error "Schemas directory not initialized")
      else mret dir
  | None => throw (Error "Schemas directory not initialized")
  end.

(** *** Read delegations, lines 44-67 *)

Definition listVersions (sv : Service) : M (list VersionSummary) :=
  s ← getStore sv; store_read "listVersions" (Store.listVersions s).

Definition getVersion (sv : Service) (v : Z) : M (option VersionFile) :=
  s ← getStore sv; store_read "readVersion" (λ vs, Store.readVersion s vs v).

Definition getLatestVersion (sv : Service) : M (option VersionFile) :=
  s ← getStore sv; store_read "readLatestVersion" (Store.readLatestVersion s).

Definition diffVersions (sv : Service) (fromVersion toVersion : Z) : M (option VersionDiff) :=
  s ← getStore sv;
  store_read "diffVersions" (λ vs, Store.diffVersions s vs fromVersion toVersion).

(** *** Pending changes and new versions *)

Record PendingChangesResult : Type := {
  hasChanges : bool;
  pendingChanges : list VersionChange;
  currentSchemaCount : nat;
  previousSchemaCount : nat;
  latestVersion : option Z }.

Record CreateVersionResult : Type := {
  createdVersion : Z;
  createdMigration : string;
  createdChanges : list VersionChange }.

(** The change list of lines 204-213 and 254-271. *)
Definition computeChanges (latest : option VersionFile) (currentSnapshot : obj)
    : list VersionChange :=
  match latest with
  | None => schemaAdded <$> obj_keys currentSnapshot
  | Some v => Store.computeSnapshotDiff (snapshot v) currentSnapshot
  end.

(** [createVersion], lines 189-235. *)
Definition createVersion (sv : Service) (description : option string) : M CreateVersionResult :=
  dir ← requireSchemasDir sv;
  storeInstance ← getStore sv;
  currentSchemas ← io_loadSchemas dir;
  currentSnapshot ← lift (schemasToSnapshot currentSchemas);
  latest ← store_read "readLatestVersion" (Store.readLatestVersion storeInstance);
  let changes := computeChanges latest currentSnapshot in
  if length changes =? 0 then throw (Error "No changes to create version")
  else
    now ← io_now;
    let migration := migrationName now in
    versionFile ← store_createVersion storeInstance currentSnapshot changes
      {| metaDriver := "mysql"; metaMigration := migration;
         metaDescription := description |};
    mret {| createdVersion := version versionFile;
            createdMigration := default migration (Version.migration versionFile);
            createdChanges := Version.changes versionFile |}.

(** [getPendingChanges], lines 240-280. *)
Definition getPendingChanges (sv : Service) : M PendingChangesResult :=
  dir ← requireSchemasDir sv;
  storeInstance ← getStore sv;
  currentSchemas ← io_loadSchemas dir;
  currentSnapshot ← lift (schemasToSnapshot currentSchemas);
  latest ← store_read "readLatestVersion" (Store.readLatestVersion storeInstance);
  let changes := computeChanges latest currentSnapshot in
  mret {| hasChanges := 0 <? length changes;
          pendingChanges := changes;
          currentSchemaCount := length (obj_keys currentSnapshot);
          previousSchemaCount :=
            match latest with
            | None => 0
            | Some v => length (obj_keys (snapshot v))
            end;
          latestVersion := version <$> latest |}.

(** *** Discard, lines 382-430 *)

Record DiscardChangesResult : Type := { restored : nat; deleted : nat }.

(** The loop of lines 406-417. *)
Fixpoint restoreLoop (dir : string) (es : obj) (restored : nat) : M nat :=
  match es with
  | [] => mret restored
  | (name, schemaSnapshot) :: es' =>
      yamlData ← lift (snapshotToYaml schemaSnapshot);
      let yamlContent := stringify yamlData in
      _ ← io_writeFile dir (name +:+ ".yaml") yamlContent;
      restoreLoop dir es' (restored + 1)
  end.

(** The loop of lines 420-427. *)
Fixpoint deleteLoop (dir : string) (snapshotSchemaNames : gset string)
    (yamlFiles : list string) (deleted : nat) : M nat :=
  match yamlFiles with
  | [] => mret deleted
  | file :: rest =>
      let name := schemaNameOf file in
      if bool_decide (name ∈ snapshotSchemaNames)
      then deleteLoop dir snapshotSchemaNames rest deleted
      else
        _ ← io_unlink dir file;
        deleteLoop dir snapshotSchemaNames rest (deleted + 1)
  end.

Definition discardChanges (sv : Service) : M DiscardChangesResult :=
  dir ← requireSchemasDir sv;
  storeInstance ← getStore sv;
  latest ← store_read "readLatestVersion" (Store.readLatestVersion storeInstance);
  match latest with
  | None => throw (Error "No version to restore from. Cannot discard changes.")
  | Some latestVersion =>
      let snapshot := snapshot latestVersion in
      let snapshotSchemaNames : gset string := list_to_set (obj_keys snapshot) in
      currentFiles ← io_readdir dir;
      let yamlFiles := List.filter isYamlFile currentFiles in
      restored ← restoreLoop dir snapshot 0;
      deleted ← deleteLoop dir snapshotSchemaNames yamlFiles 0;
      mret {| restored := restored; deleted := deleted |}
  end.

End Service.

(** * Vocabulary of the properties *)

(** ** Normalisation *)

(** The list an [indexes] or [unique] option declares: none when the
    option is absent. *)
Definition declaredList (v : value) : option (list value) :=
  if nullish v then Some []
  else match v with VArr l => Some l | _ => None end.

(** The raw schemas on which the normaliser does not throw. *)
Definition normalizableProperties (props : value) : bool :=
  negb (truthy props)
  || match entries props with
     | Ok es => forallb (λ e : string * value, negb (nullish e.2)) es
     | Throw _ => false
     end.

Definition normalizableOptions (opts : value) : bool :=
  match declaredList (optget opts "indexes"), declaredList (optget opts "unique") with
  | Some explicit, Some _ => forallb (λ idx, negb (nullish idx)) explicit
  | _, _ => false
  end.

Definition normalizable (schema : value) : bool :=
  negb (nullish schema)
  && normalizableProperties (own schema "properties")
  && normalizableOptions (own schema "options").

(** The snapshot the loop body builds, when it does not throw. *)
Definition schemaSnapshot (schema : value) (properties : obj) (indexes : list value) : value :=
  let options := snapshotOptions (own schema "options") indexes in
  let kind := own schema "kind" in
  VObj (("name", own schema "name")
        :: ("kind", if nullish kind then VStr "object" else kind)
        :: spread_if (0 <? length (obj_keys properties)) "properties" (VObj properties)
        ++ spread_if (truthy (own schema "values")) "values" (own schema "values")
        ++ spread_if (0 <? length (obj_keys options)) "options" (VObj options)).

(** A field of a schema snapshot, and an entry of its options map;
    [None] when the key is absent. *)
Definition snapshotField (snap : value) (k : string) : option value :=
  match snap with VObj o => obj_lookup o k | _ => None end.

Definition snapshotOption (snap : value) (k : string) : option value :=
  match snapshotField snap "options" with
  | Some (VObj o) => obj_lookup o k
  | _ => None
  end.

(** The documented defaults of the elided options. *)
Definition elidedDefaults : obj :=
  [ ("id", VBool true); ("idType", VStr "BigInt"); ("timestamps", VBool true);
    ("softDelete", VBool false); ("translations", VBool false);
    ("authenticatable", VBool false) ].

(** ** The service *)

Section ServiceVocabulary.

Context {S C : Type} `{!Store.VersionStore S} `{!Files C}.

(** The module state after [initVersionStore] with a non-empty schemas
    directory. *)
Definition initialised (sv : Service) (dir : string) (opts : StoreOptions) : Prop :=
  schemasDir sv = Some dir ∧ dir ≠ "" ∧ store sv = Some opts.

(** The schema files of the directory whose base name is not a key of
    the snapshot. *)
Definition staleFiles (snapshot : obj) (fs : gmap string C) : list string :=
  List.filter
    (λ f, isYamlFile f && negb (bool_decide (schemaNameOf f ∈ obj_keys snapshot)))
    (map_to_list fs).*1.

End ServiceVocabulary.

(** ** Legacy unique constraints *)

(** A schema with one composite unique constraint over [email] and
    [tenant_id], in the two forms of the declared type
    [string[] | string[][]] of [unique] (types.ts, line 100). *)
Definition nestedUnique : value :=
  VObj [ ("name", VStr "Member");
         ("options", VObj [("unique", VArr [VArr [VStr "email"; VStr "tenant_id"]])]) ].

Definition flatUnique : value :=
  VObj [ ("name", VStr "Member");
         ("options", VObj [("unique", VArr [VStr "email"; VStr "tenant_id"])]) ].

(** ** Restoring a snapshot and reading it back *)

(** A pivot schema as the loader yields it, and its normalised snapshot. *)
Definition rawPivot : value :=
  VObj [ ("name", VStr "RoleUser"); ("kind", VStr "pivot");
         ("properties",
          VObj [ ("role_id", VObj [("type", VStr "Int")]);
                 ("user_id", VObj [("type", VStr "Int")]) ]) ].

Definition pivotSnapshot : value :=
  VObj [ ("name", VStr "RoleUser"); ("kind", VStr "pivot");
         ("properties",
          VObj [ ("role_id", VObj [("type", VStr "Int")]);
                 ("user_id", VObj [("type", VStr "Int")]) ]) ].

(** ** Normal forms *)

(** The fields of a schema that the normaliser reads. *)
Definition schemaFields : list string :=
  ["name"; "kind"; "properties"; "options"; "values"].

(** The property loop of lines 114-119 on the [properties] of a schema. *)
Definition normalisedProperties (schema : value) : result obj :=
  if truthy (own schema "properties")
  then es ← entries (own schema "properties"); propertiesLoop es []
  else Ok [].

Definition isTypeError (e : error) : Prop := ∃ msg, e = TypeError msg.

(** The keys of an object built by assignments: each once, and never
    [__proto__]. *)
Definition ordinaryKeys (o : obj) : Prop :=
  NoDup (obj_keys o) ∧ "__proto__" ∉ obj_keys o.

(** The options value a snapshot holds for an options map [o]. *)
Definition storedOptions (o : obj) : value :=
  if 0 <? length (obj_keys o) then VObj o else VUndef.

(** ** Canonical keys *)

(** The keys of a schema snapshot, of a property, of the options and of an
    index, in the order the source assigns them (lines 154-160, 80-102,
    145-152 and 125-138). *)
Definition schemaKeys : list string := ["name"; "kind"; "properties"; "values"; "options"].

Definition propertyKeys : list string :=
  [ "type"; "displayName"; "description"; "nullable"; "unique"; "default";
    "length"; "unsigned"; "precision"; "scale"; "enum"; "relation"; "target";
    "targets"; "morphName"; "onDelete"; "onUpdate"; "mappedBy"; "inversedBy";
    "joinTable"; "owning" ].

Definition optionKeys : list string :=
  [ "id"; "idType"; "timestamps"; "softDelete"; "tableName"; "translations";
    "authenticatable"; "indexes" ].

Definition indexKeys : list string := ["columns"; "unique"; "name"; "type"].

(** [v] is an object whose keys are some of [ks], in the order of [ks]. *)
Definition keysAmong (ks : list string) (v : value) : Prop :=
  ∃ o, v = VObj o ∧ sublist (obj_keys o) ks.

(** The keys of a schema snapshot, of each of its properties, of its
    options and of each of its indexes are among the lists above and in
    their order.  This bounds the keys at these four levels only: the
    order of the property names and the contents of the copied values are
    those of the input. *)
Definition canonical (snap : value) : Prop :=
  keysAmong schemaKeys snap
  ∧ (∀ ps, own snap "properties" = VObj ps →
       Forall (λ e : string * value, keysAmong propertyKeys e.2) ps)
  ∧ (own snap "options" = VUndef ∨ keysAmong optionKeys (own snap "options"))
  ∧ (∀ l, optget (own snap "options") "indexes" = VArr l → Forall (keysAmong indexKeys) l).

(** ** Restorable snapshots *)


(** What a spread accepts, and [undefined], which is not spread. *)
Definition iterableOrAbsent (v : value) : bool :=
  match v with VUndef | VArr _ | VStr _ => true | _ => false end.






(** The keys [snapshotToYaml] assigns, lines 331-373. *)
Definition documentKeys : list string :=
  [ "kind"; "displayName"; "singular"; "plural"; "titleIndex"; "group";
    "properties"; "values"; "options" ].

(** What [snapshotToYaml] may put into a document: only the document
    keys, and [kind] only as ['enum']. *)
Definition documentEntry (k : string) (v : value) : Prop :=
  k ∈ documentKeys ∧ (k = "kind" → v = VStr "enum").

(** What [yamlOptions] may put into an options block. *)
Definition nonDefaultOption (k : string) (v : value) : Prop :=
  (k = "id" ∧ v = VBool false)
  ∨ (k = "idType" ∧ truthy v = true ∧ v ≠ VStr "BigInt")
  ∨ (k = "timestamps" ∧ v = VBool false)
  ∨ (k ∈ ["softDelete"; "translations"; "authenticatable"] ∧ v = VBool true)
  ∨ (k = "tableName" ∧ truthy v = true)
  ∨ (k = "indexes" ∧ ∃ l, v = VArr l ∧ l ≠ []).

(** Every entry of [o] satisfies [P]. *)
Definition holds (P : string → value → Prop) (o : obj) : Prop :=
  ∀ k v, obj_lookup o k = Some v → P k v.

(** ** Timestamps *)

(** The characters [/[-:T]/g] removes, and the strings without them. *)
Definition separator (c : ascii) : Prop := c ∈ ["-"; ":"; "T"]%char.

Definition plain (s : string) : Prop :=
  Forall (λ c, ¬ separator c) (String.list_ascii_of_string s).

(** ** A reference instance *)

Module Reference.

(** Modelled from the spec: the version store of [@famgia/omnify-core]
    (section 4.3), as the list of its version files in ascending order.
    [createVersion] numbers the new version one above the latest, refuses
    an empty change list, and evicts the oldest versions beyond the
    retention cap. *)
Definition summary (v : VersionFile) : VersionSummary :=
  {| summaryVersion := version v; summaryTimestamp := timestamp v;
     summaryDriver := driver v; summaryMigration := migration v;
     summaryDescription := description v;
     schemaCount := length (snapshot v); changeCount := length (changes v) |}.

(** Modelled from the spec: the schema-presence step of the diff engine
    (section 4.2, step 1); the field-level steps are left out. *)
Definition presenceDiff (before after : obj) : list VersionChange :=
  (schemaAdded <$> List.filter (λ n, negb (bool_decide (n ∈ obj_keys before))) (obj_keys after))
  ++ ((λ n, {| action := schema_removed; schema := n; property := None;
               from := None; to := None |})
      <$> List.filter (λ n, negb (bool_decide (n ∈ obj_keys after))) (obj_keys before)).

Definition readStored (vs : list VersionFile) (n : Z) : option VersionFile :=
  List.find (λ v, version v =? n)%Z vs.

Definition appendVersion (opts : StoreOptions) (vs : list VersionFile) (snap : obj)
    (chs : list VersionChange) (meta : VersionMeta) : result VersionFile * list VersionFile :=
  match chs with
  | [] => (Throw (Error "Cannot create a version without changes"), vs)
  | _ =>
      let v := {| version := from_option (λ l, version l + 1)%Z 1%Z (last vs);
                  timestamp := ""; driver := metaDriver meta;
                  migration := Some (metaMigration meta);
                  description := metaDescription meta;
                  changes := chs; snapshot := snap |} in
      let vs' := vs ++ [v] in
      (Ok v, drop (length vs' - maxVersions opts) vs')
  end.

#[export] Instance listStore : Store.VersionStore (list VersionFile) := {|
  Store.listVersions := λ _ vs, summary <$> vs;
  Store.readVersion := λ _ vs n, readStored vs n;
  Store.readLatestVersion := λ _ vs, last vs;
  Store.diffVersions := λ _ vs a b,
    match readStored vs a, readStored vs b with
    | Some va, Some vb => Some {| diffChanges := presenceDiff (snapshot va) (snapshot vb) |}
    | _, _ => None
    end;
  Store.computeSnapshotDiff := presenceDiff;
  Store.createVersion := appendVersion |}.

(** Modelled from the spec: the schema loader and the printer
    (section 6).  A file is modelled by the document it encodes, so
    printing is the identity; the loader names each schema after its file
    and takes the other fields from the document. *)
Definition loadedSchema (f : string) (doc : value) : option (string * value) :=
  if isYamlFile f
  then match doc with
       | VObj fields => Some (schemaNameOf f, VObj (("name", VStr (schemaNameOf f)) :: fields))
       | _ => None
       end
  else None.

#[export] Instance documentFiles : Files value := {|
  loadSchemas := λ _ fs, Ok (omap (λ e : string * value, loadedSchema e.1 e.2) (map_to_list fs));
  stringify := λ doc, doc |}.

Definition service : Service := initVersionStore "/app" "/app/schemas".
Definition storeOptions : StoreOptions := {| baseDir := "/app"; maxVersions := 100 |}.

Definition userDocument : value :=
  VObj [ ("properties", VObj [("email", VObj [("type", VStr "Email"); ("unique", VBool true)])]);
         ("options", VObj [("softDelete", VBool true); ("unique", VArr [VArr [VStr "email"]])]) ].

Definition userSchema : value :=
  VObj [ ("name", VStr "User");
         ("properties", VObj [("email", VObj [("type", VStr "Email"); ("unique", VBool true)])]);
         ("options", VObj [("softDelete", VBool true); ("unique", VArr [VArr [VStr "email"]])]) ].

Definition userSnapshot : value :=
  VObj [ ("name", VStr "User"); ("kind", VStr "object");
         ("properties", VObj [("email", VObj [("type", VStr "Email"); ("unique", VBool true)])]);
         ("options",
          VObj [ ("softDelete", VBool true);
                 ("indexes",
                  VArr [VObj [ ("columns", VArr [VStr "email"]); ("unique", VBool true);
                               ("name", VStr "unique_0") ]]) ]) ].

Definition world (vs : list VersionFile) (fs : gmap string value) : World :=
  {| versions := vs; files := fs; directory := true;
     clock := "2025-12-28T10:00:00.000Z"; trace := [] |}.

Definition version1 : VersionFile :=
  {| version := 1; timestamp := "2025-12-28T10:00:00.000Z"; driver := "mysql";
     migration := Some "20251228100000_omnify_migration"; description := None;
     changes := [schemaAdded "User"]; snapshot := [("User", userSnapshot)] |}.

Definition defaultsSchema : value :=
  VObj [ ("name", VStr "Post"); ("options", VObj elidedDefaults) ].

Definition defaultsSnapshot : value :=
  VObj [ ("name", VStr "Post"); ("kind", VStr "object") ].

(** The document [snapshotToYaml] yields for [userSnapshot]: the legacy
    [unique] constraint comes back as an entry of [indexes]. *)
Definition restoredUserDocument : value :=
  VObj [ ("properties", VObj [("email", VObj [("type", VStr "Email"); ("unique", VBool true)])]);
         ("options",
          VObj [ ("softDelete", VBool true);
                 ("indexes",
                  VArr [VObj [ ("columns", VArr [VStr "email"]); ("unique", VBool true);
                               ("name", VStr "unique_0") ]]) ]) ].

Definition staleWorld : World :=
  world [version1]
    (<[ "User.yml" := VStr "edited" ]>
       (<[ "Draft.yaml" := VStr "draft" ]> {[ "notes.txt" := VStr "notes" ]})).

Definition pivotVersion : VersionFile :=
  {| version := 1; timestamp := "2025-12-28T10:00:00.000Z"; driver := "mysql";
     migration := Some "20251228100000_omnify_migration"; description := None;
     changes := [schemaAdded "RoleUser"]; snapshot := [("RoleUser", pivotSnapshot)] |}.

(** [userSchema] with fields the normaliser does not read. *)
Definition annotatedUserSchema : value :=
  VObj [ ("name", VStr "User"); ("displayName", VStr "Account"); ("group", VStr "auth");
         ("properties", VObj [("email", VObj [("type", VStr "Email"); ("unique", VBool true)])]);
         ("options", VObj [("softDelete", VBool true); ("unique", VArr [VArr [VStr "email"]])]) ].

(** A snapshot that cannot be restored: the [enum] of a property is a
    number. *)
Definition brokenSnapshot : value :=
  VObj [ ("name", VStr "Status"); ("kind", VStr "object");
         ("properties", VObj [("state", VObj [("type", VStr "Enum"); ("enum", VNum 3)])]) ].

(** The same snapshot with the schema that cannot be restored first. *)
Definition brokenFirstVersion : VersionFile :=
  {| version := 1; timestamp := "2025-12-28T10:00:00.000Z"; driver := "mysql";
     migration := Some "20251228100000_omnify_migration"; description := None;
     changes := [schemaAdded "Status"; schemaAdded "User"];
     snapshot := [("Status", brokenSnapshot); ("User", userSnapshot)] |}.






(** A property with an attribute outside the documented set, an attribute
    that is [null] and one that is [undefined]. *)
Definition annotatedProperty : obj :=
  [ ("comment", VStr "login"); ("nullable", VNull); ("type", VStr "String");
    ("length", VUndef); ("unique", VBool true) ].

Definition brokenVersion : VersionFile :=
  {| version := 1; timestamp := "2025-12-28T10:00:00.000Z"; driver := "mysql";
     migration := Some "20251228100000_omnify_migration"; description := None;
     changes := [schemaAdded "User"; schemaAdded "Status"; schemaAdded "Role"];
     snapshot := [("User", userSnapshot); ("Status", brokenSnapshot);
                  ("Role", defaultsSnapshot)] |}.

(** [userSchema] with its fields in another order and an attribute the
    normaliser does not know. *)
Definition shuffledUserSchema : value :=
  VObj [ ("options", VObj [("unique", VArr [VArr [VStr "email"]]); ("softDelete", VBool true)]);
         ("properties",
          VObj [("email", VObj [ ("unique", VBool true); ("comment", VStr "login");
                                 ("type", VStr "Email") ])]);
         ("name", VStr "User") ].

End Reference.

(** * Properties *)

(** ** Objects *)

Section Objects.

Implicit Types (o : obj) (k : string) (v : value).

Lemma obj_lookup_app o1 o2 k :
  obj_lookup (o1 ++ o2) k =
  match obj_lookup o1 k with Some v => Some v | None => obj_lookup o2 k end.
Proof.
  induction o1 as [|[k' v'] o1 IH]; simpl; [done|].
  by destruct (String.eqb k' k).
Qed.

Lemma obj_lookup_put o k v k' :
  obj_lookup (obj_put o k v) k' = if String.eqb k k' then Some v else obj_lookup o k'.
Proof.
  induction o as [|[k0 v0] o IH]; simpl; [done|].
  destruct (String.eqb_spec k0 k) as [->|Hne]; simpl.
  - by destruct (String.eqb k k').
  - rewrite IH. destruct (String.eqb_spec k0 k') as [->|]; [|done].
    rewrite (proj2 (String.eqb_neq k k')); [done | congruence].
Qed.

(** A new key is appended. *)
Lemma obj_put_fresh o k v : k ∉ obj_keys o → obj_put o k v = o ++ [(k, v)].
Proof.
  induction o as [|[k' v'] o IH]; simpl; [done|].
  rewrite not_elem_of_cons. intros [Hne Hk].
  rewrite (proj2 (String.eqb_neq _ _)); [|congruence]. by rewrite IH.
Qed.

End Objects.

(** ** Property normalisation *)

Lemma spread_defined_lookup (src : value) (ks : list string) (k : string) :
  obj_lookup (flat_map (spread_defined src) ks) k =
  if bool_decide (k ∈ ks)
  then (if is_undefined (own src k) then None else Some (own src k))
  else None.
Proof.
  induction ks as [|k0 ks IH]; simpl; [done|].
  rewrite obj_lookup_app. unfold spread_defined at 1.
  destruct (decide (k0 = k)) as [->|Hne].
  - rewrite (bool_decide_eq_true_2 (k ∈ k :: ks)) by left.
    destruct (is_undefined (own src k)) eqn:Hu; simpl.
    + rewrite IH. by case_bool_decide.
    + by rewrite String.eqb_refl.
  - assert (bool_decide (k ∈ k0 :: ks) = bool_decide (k ∈ ks)) as ->.
    { apply bool_decide_ext. rewrite elem_of_cons.
      split; [intros [?|?]; [congruence|done] | by right]. }
    destruct (is_undefined (own src k0)); simpl; [done|].
    by rewrite (proj2 (String.eqb_neq k0 k)).
Qed.

(** C6. For every raw property (an object), [propertyToSnapshot] returns
    an object that has the key [type] with the input's [type], has each of
    the twenty documented optional attributes exactly when the input
    defines it (is not [undefined] there) and then with the input's value,
    and has no other key. *)
Theorem propertyToSnapshot_copies_defined (prop : obj) :
  ∃ r : obj,
    propertyToSnapshot (VObj prop) = Ok (VObj r)
    ∧ obj_lookup r "type" = Some (default VUndef (obj_lookup prop "type"))
    ∧ (∀ k, k ∈ [ "displayName"; "description"; "nullable"; "unique"; "default";
                  "length"; "unsigned"; "precision"; "scale"; "enum"; "relation";
                  "target"; "targets"; "morphName"; "onDelete"; "onUpdate";
                  "mappedBy"; "inversedBy"; "joinTable"; "owning" ] →
         obj_lookup r k =
         match obj_lookup prop k with
         | None | Some VUndef => None
         | Some v => Some v
         end)
    ∧ (∀ k, k ∉ [ "type"; "displayName"; "description"; "nullable"; "unique";
                  "default"; "length"; "unsigned"; "precision"; "scale"; "enum";
                  "relation"; "target"; "targets"; "morphName"; "onDelete";
                  "onUpdate"; "mappedBy"; "inversedBy"; "joinTable"; "owning" ] →
         obj_lookup r k = None).
Proof.
  exists (("type", own (VObj prop) "type")
          :: flat_map (spread_defined (VObj prop)) optional_attributes).
  split; [reflexivity|]. split; [reflexivity|]. split.
  - intros k Hk. cbn [obj_lookup].
    destruct (String.eqb_spec "type" k) as [<-|_].
    + exfalso. revert Hk. by apply (proj1 (bool_decide_eq_false _)).
    + rewrite spread_defined_lookup. rewrite bool_decide_eq_true_2 by exact Hk.
      cbn [own]. by destruct (obj_lookup prop k) as [[]|].
  - intros k Hk. apply not_elem_of_cons in Hk as [Hty Hk]. cbn [obj_lookup].
    rewrite (proj2 (String.eqb_neq "type" k)) by congruence.
    rewrite spread_defined_lookup. by rewrite bool_decide_eq_false_2 by exact Hk.
Qed.

(** ** Schema normalisation *)

Lemma get_defined (v : value) (k : string) :
  nullish v = false → get v k = Ok (own v k).
Proof. unfold get. by intros ->. Qed.

Lemma is_bool_true (b : bool) (v : value) : is_bool b v = true → v = VBool b.
Proof. destruct v as [| |b'| | | |]; simpl; try done. by destruct b, b'. Qed.

Lemma is_str_false (s : string) (v : value) : is_str s v = false → v ≠ VStr s.
Proof. intros H ->. simpl in H. by rewrite String.eqb_refl in H. Qed.

Lemma assign_if_lookup (c : bool) (k : string) (v : value) (o : obj) (k' : string) :
  k ≠ "__proto__" →
  obj_lookup (assign_if c k v o) k' =
  if c && String.eqb k k' then Some v else obj_lookup o k'.
Proof.
  intros Hk. unfold assign_if, obj_set. destruct c; simpl; [|done].
  rewrite (proj2 (String.eqb_neq k "__proto__")) by done.
  apply obj_lookup_put.
Qed.

(** Callbacks of [map] that ignore the position, and callbacks that do
    not throw. *)
Lemma mapM_imap_values (f : value → result value) (g : nat → value → nat * value)
    (l : list value) :
  (∀ i v, (g i v).2 = v) →
  mapM (λ p : nat * value, f p.2) (imap g l) = mapM f l.
Proof.
  revert g. induction l as [|x l IH]; intros g Hg; simpl; [done|].
  rewrite Hg. destruct (f x); simpl; [|done].
  rewrite (IH (g ∘ Datatypes.S)); [done|]. intros i v. apply Hg.
Qed.

Lemma array_map_values (f : value → result value) (l : list value) :
  array_map (VArr l) (λ _ idx, f idx) = mapM f l.
Proof. simpl. by apply (mapM_imap_values f pair). Qed.

Lemma mapM_imap_total (h : nat → value → value) (g : nat → nat) (l : list value) :
  mapM (λ p : nat * value, Ok (h p.1 p.2)) (imap (λ i v, (g i, v)) l)
  = Ok (imap (λ i v, h (g i) v) l).
Proof.
  revert g. induction l as [|x l IH]; intros g; simpl; [done|].
  match goal with
  | |- ?m ≫= _ = _ =>
      assert (m = Ok (imap ((λ i v, h (g i) v) ∘ Datatypes.S) l)) as ->
        by exact (IH (g ∘ Datatypes.S))
  end.
  done.
Qed.

Lemma array_map_total (h : nat → value → value) (l : list value) :
  array_map (VArr l) (λ i cols, Ok (h i cols)) = Ok (imap h l).
Proof. simpl. apply (mapM_imap_total h id). Qed.

Lemma mapM_result_Forall2 {A B} (f : A → result B) (l : list A) (l' : list B) :
  mapM f l = Ok l' ↔ Forall2 (λ x y, f x = Ok y) l l'.
Proof.
  revert l'. induction l as [|x l IH]; intros l'; simpl.
  - split; [by intros [= <-]; constructor | by inversion 1].
  - destruct (f x) as [y|e] eqn:Hx; simpl.
    + destruct (mapM f l) as [ys|e] eqn:Hl; simpl.
      * split.
        -- intros [= <-]. constructor; [done|]. by apply IH.
        -- inversion 1 as [|? y' ? ys' Hy Hys]; subst.
           apply IH in Hys. rewrite Hx in Hy. by simplify_eq.
      * split; [done|]. inversion 1 as [|? y' ? ys' Hy Hys]; subst.
        by apply IH in Hys.
    + split; [done|]. inversion 1 as [|? y' ? ys' Hy Hys]; subst.
      by rewrite Hx in Hy.
Qed.

Lemma propertiesLoop_total (es : obj) (acc : obj) :
  forallb (λ e : string * value, negb (nullish e.2)) es = true →
  ∃ properties, propertiesLoop es acc = Ok properties.
Proof.
  revert acc. induction es as [|[k p] es IH]; intros acc; simpl; [by eexists|].
  intros [Hp Hes]%andb_prop. apply negb_true_iff in Hp.
  unfold propertyToSnapshot. rewrite get_defined by done. simpl. by apply IH.
Qed.

Lemma propertiesLoop_Ok (es : obj) (acc properties : obj) :
  propertiesLoop es acc = Ok properties →
  forallb (λ e : string * value, negb (nullish e.2)) es = true.
Proof.
  revert acc. induction es as [|[k p] es IH]; intros acc; simpl; [done|].
  unfold propertyToSnapshot, get. destruct (nullish p); simpl; [done|]. apply IH.
Qed.

Lemma allIndexes_declared (opts : value) (explicit legacy : list value) :
  declaredList (optget opts "indexes") = Some explicit →
  declaredList (optget opts "unique") = Some legacy →
  allIndexes opts =
    (entries ← mapM indexSnapshot explicit; Ok (entries ++ imap uniqueAsIndex legacy)).
Proof.
  unfold allIndexes, declaredList, optional_map. intros Hi Hu.
  destruct (nullish (optget opts "indexes")) eqn:Hni;
    destruct (nullish (optget opts "unique")) eqn:Hnu; simplify_eq; simpl.
  - done.
  - destruct (optget opts "unique"); simplify_eq.
    by rewrite array_map_total.
  - destruct (optget opts "indexes"); simplify_eq.
    rewrite array_map_values. by destruct (mapM indexSnapshot explicit).
  - destruct (optget opts "indexes"), (optget opts "unique"); simplify_eq.
    rewrite array_map_values, array_map_total.
    by destruct (mapM indexSnapshot explicit).
Qed.

Lemma allIndexes_Ok (opts : value) (indexes : list value) :
  allIndexes opts = Ok indexes → normalizableOptions opts = true.
Proof.
  unfold allIndexes, normalizableOptions, declaredList, optional_map.
  destruct (nullish (optget opts "indexes")) eqn:Hni; simpl.
  - destruct (nullish (optget opts "unique")); [done|].
    by destruct (optget opts "unique").
  - destruct (optget opts "indexes") as [| | | | |l|] eqn:Hl; try done.
    rewrite array_map_values.
    destruct (mapM indexSnapshot l) as [es|] eqn:Hes; simpl; [|done].
    intros Hu.
    assert (forallb (λ idx, negb (nullish idx)) l = true) as ->.
    { apply mapM_result_Forall2 in Hes. clear -Hes.
      induction Hes as [|idx e l es Hidx _ IH]; simpl; [done|].
      rewrite IH, andb_true_r. unfold indexSnapshot, get in Hidx.
      by destruct (nullish idx). }
    destruct (nullish (optget opts "unique")); [done|].
    by destruct (optget opts "unique").
Qed.

Lemma indexSnapshot_defined (idx : value) :
  nullish idx = false →
  indexSnapshot idx =
  Ok (VObj (("columns", own idx "columns")
            :: flat_map (spread_defined idx) ["unique"; "name"; "type"])).
Proof.
  intros Hidx. unfold indexSnapshot. rewrite get_defined by done. simpl.
  by rewrite app_nil_r.
Qed.

Lemma mapM_indexSnapshot_total (l : list value) :
  forallb (λ idx, negb (nullish idx)) l = true →
  ∃ es, mapM indexSnapshot l = Ok es.
Proof.
  induction l as [|idx l IH]; simpl; [by eexists|].
  intros [Hidx [es Hes]%IH]%andb_prop. apply negb_true_iff in Hidx.
  rewrite indexSnapshot_defined by done. simpl.
  rewrite Hes. by eexists.
Qed.

Lemma schemaToSnapshot_Ok (schema snap : value) :
  schemaToSnapshot schema = Ok snap →
  ∃ properties indexes,
    normalizable schema = true
    ∧ allIndexes (own schema "options") = Ok indexes
    ∧ snap = schemaSnapshot schema properties indexes.
Proof.
  unfold schemaToSnapshot, normalizable, normalizableProperties, get.
  destruct (nullish schema); simpl; [done|].
  destruct (truthy (own schema "properties")) eqn:Htr; simpl.
  - destruct (entries (own schema "properties")) as [es|]; simpl; [|done].
    destruct (propertiesLoop es []) as [properties|] eqn:Hps; simpl; [|done].
    destruct (allIndexes (own schema "options")) as [indexes|] eqn:Hix; simpl; [|done].
    intros [= <-]. exists properties, indexes.
    by rewrite (propertiesLoop_Ok _ _ _ Hps), (allIndexes_Ok _ _ Hix).
  - destruct (allIndexes (own schema "options")) as [indexes|] eqn:Hix; simpl; [|done].
    intros [= <-]. exists [], indexes. by rewrite (allIndexes_Ok _ _ Hix).
Qed.

(** The normaliser returns a snapshot on every normalisable schema. *)
Lemma schemaToSnapshot_total (schema : value) :
  normalizable schema = true → ∃ snap, schemaToSnapshot schema = Ok snap.
Proof.
  unfold normalizable, normalizableProperties, normalizableOptions.
  intros [[Hs Hp]%andb_prop Ho]%andb_prop. apply negb_true_iff in Hs.
  destruct (declaredList (optget (own schema "options") "indexes")) as [explicit|] eqn:Hi; [|done].
  destruct (declaredList (optget (own schema "options") "unique")) as [legacy|] eqn:Hu; [|done].
  destruct (mapM_indexSnapshot_total _ Ho) as [es Hes].
  assert (∃ properties,
    (if truthy (own schema "properties")
     then es ← entries (own schema "properties"); propertiesLoop es []
     else Ok []) = Ok properties) as [properties Hps].
  { destruct (truthy (own schema "properties")); simpl in *; [|by eexists].
    destruct (entries (own schema "properties")) as [es'|]; simpl; [|done].
    by apply propertiesLoop_total. }
  unfold schemaToSnapshot. rewrite !get_defined by done. simpl.
  rewrite Hps. simpl. rewrite (allIndexes_declared _ _ _ Hi Hu), Hes. simpl.
  by eexists.
Qed.

Lemma schemaSnapshot_options (schema : value) (properties : obj) (indexes : list value) :
  snapshotField (schemaSnapshot schema properties indexes) "options" =
  let options := snapshotOptions (own schema "options") indexes in
  if 0 <? length (obj_keys options) then Some (VObj options) else None.
Proof.
  unfold schemaSnapshot, snapshotField. cbn [obj_lookup String.eqb Ascii.eqb Bool.eqb].
  rewrite !obj_lookup_app.
  destruct (0 <? length (obj_keys properties)), (truthy (own schema "values")),
    (0 <? length (obj_keys (snapshotOptions (own schema "options") indexes)));
    reflexivity.
Qed.

Lemma schemaSnapshot_option (schema : value) (properties : obj) (indexes : list value)
    (k : string) :
  snapshotOption (schemaSnapshot schema properties indexes) k =
  obj_lookup (snapshotOptions (own schema "options") indexes) k.
Proof.
  unfold snapshotOption. rewrite schemaSnapshot_options. simpl.
  destruct (snapshotOptions (own schema "options") indexes); reflexivity.
Qed.

Lemma snapshotOptions_lookup (opts : value) (indexes : list value) (k : string) :
  obj_lookup (snapshotOptions opts indexes) k =
  if (0 <? length indexes) && String.eqb "indexes" k then Some (VArr indexes)
  else if is_bool true (optget opts "authenticatable") && String.eqb "authenticatable" k
    then Some (VBool true)
  else if is_bool true (optget opts "translations") && String.eqb "translations" k
    then Some (VBool true)
  else if truthy (optget opts "tableName") && String.eqb "tableName" k
    then Some (optget opts "tableName")
  else if is_bool true (optget opts "softDelete") && String.eqb "softDelete" k
    then Some (VBool true)
  else if is_bool false (optget opts "timestamps") && String.eqb "timestamps" k
    then Some (VBool false)
  else if (truthy (optget opts "idType") && negb (is_str "BigInt" (optget opts "idType")))
          && String.eqb "idType" k
    then Some (optget opts "idType")
  else if is_bool false (optget opts "id") && String.eqb "id" k then Some (VBool false)
  else None.
Proof. unfold snapshotOptions. by rewrite !assign_if_lookup. Qed.

(** C5. Every schema snapshot that normalisation produces satisfies the
    elision invariant: when one of [id], [idType], [timestamps],
    [softDelete], [translations], [authenticatable] is a key of its options
    map, the stored value is the incoming value of that option and differs
    from the documented default; and a schema whose input options are
    exactly the defaults gets a snapshot without an [options] key. *)
Theorem options_elide_defaults (schema snap : value) :
  schemaToSnapshot schema = Ok snap →
  (∀ k d v, (k, d) ∈ elidedDefaults → snapshotOption snap k = Some v →
     v = optget (own schema "options") k ∧ v ≠ d)
  ∧ ((∀ k, optget (own schema "options") k = own (VObj elidedDefaults) k) →
     snapshotField snap "options" = None).
Proof.
  intros (properties & indexes & _ & Hix & ->)%schemaToSnapshot_Ok. split.
  - intros k d v Hk. rewrite schemaSnapshot_option, snapshotOptions_lookup.
    set (opts := own schema "options").
    unfold elidedDefaults in Hk.
    repeat (apply elem_of_cons in Hk as [[= -> ->]|Hk]);
      [..|by apply elem_of_nil in Hk];
      cbn [String.eqb Ascii.eqb Bool.eqb]; rewrite ?andb_false_r, ?andb_true_r.
    + destruct (is_bool false (optget opts "id")) eqn:H; [|done].
      apply is_bool_true in H. rewrite H. by intros [= <-].
    + destruct (truthy (optget opts "idType")); [|done]. simpl.
      destruct (is_str "BigInt" (optget opts "idType")) eqn:H; [done|]. simpl.
      apply is_str_false in H. by intros [= <-].
    + destruct (is_bool false (optget opts "timestamps")) eqn:H; [|done].
      apply is_bool_true in H. rewrite H. by intros [= <-].
    + destruct (is_bool true (optget opts "softDelete")) eqn:H; [|done].
      apply is_bool_true in H. rewrite H. by intros [= <-].
    + destruct (is_bool true (optget opts "translations")) eqn:H; [|done].
      apply is_bool_true in H. rewrite H. by intros [= <-].
    + destruct (is_bool true (optget opts "authenticatable")) eqn:H; [|done].
      apply is_bool_true in H. rewrite H. by intros [= <-].
  - intros Hdef. rewrite schemaSnapshot_options.
    assert (indexes = []) as ->.
    { revert Hix. unfold allIndexes, optional_map. rewrite !Hdef. simpl. by intros [= <-]. }
    unfold snapshotOptions. rewrite !Hdef. reflexivity.
Qed.

(** *** Indexes *)

(** C7. A composite unique constraint written as a list of lists becomes
    one synthetic index over its column list, named [unique_0].  Written
    as a plain list of columns, the other form of the declared type, the
    same constraint becomes one index per column, each with a bare string
    as [columns], named [unique_0] and [unique_1]: the normaliser takes
    every element of [unique] for a constraint. *)
Theorem unique_columns_become_separate_indexes :
  schemaToSnapshot nestedUnique =
    Ok (VObj [ ("name", VStr "Member"); ("kind", VStr "object");
               ("options",
                VObj [("indexes",
                       VArr [VObj [ ("columns", VArr [VStr "email"; VStr "tenant_id"]);
                                    ("unique", VBool true);
                                    ("name", VStr "unique_0") ]])]) ])
  ∧ schemaToSnapshot flatUnique =
      Ok (VObj [ ("name", VStr "Member"); ("kind", VStr "object");
                 ("options",
                  VObj [("indexes",
                         VArr [ VObj [ ("columns", VStr "email");
                                       ("unique", VBool true);
                                       ("name", VStr "unique_0") ];
                                VObj [ ("columns", VStr "tenant_id");
                                       ("unique", VBool true);
                                       ("name", VStr "unique_1") ] ])]) ]).
Proof. split; reflexivity. Qed.

(** ** File names *)

Section FileNames.

Implicit Types (s suf name f : string).

Lemma string_length_app s1 s2 :
  String.length (s1 +:+ s2) = String.length s1 + String.length s2.
Proof. induction s1 as [|c s1 IH]; simpl; [done|]. by rewrite IH. Qed.

Lemma strip_suffix_unfold suf s :
  strip_suffix suf s =
  if String.eqb s suf then Some ""
  else match s with
       | "" => None
       | String c s' => String c <$> strip_suffix suf s'
       end.
Proof. by destruct s. Qed.

Lemma strip_suffix_app suf s : strip_suffix suf (s +:+ suf) = Some s.
Proof.
  induction s as [|c s IH]; rewrite strip_suffix_unfold.
  - change ("" +:+ suf) with suf. by rewrite String.eqb_refl.
  - destruct (String.eqb_spec (String c s +:+ suf) suf) as [Heq|_].
    + apply (f_equal String.length) in Heq.
      rewrite string_length_app in Heq. simpl in Heq. lia.
    + change (String c s +:+ suf) with (String c (s +:+ suf)). cbv iota.
      by rewrite IH.
Qed.

Lemma strip_suffix_Some suf f s : strip_suffix suf f = Some s → f = s +:+ suf.
Proof.
  revert s. induction f as [|c f IH]; intros s; rewrite strip_suffix_unfold.
  - destruct (String.eqb_spec "" suf) as [<-|_]; [|done]. by intros [= <-].
  - destruct (String.eqb_spec (String c f) suf) as [<-|_]; [by intros [= <-]|].
    destruct (strip_suffix suf f) as [r|]; simpl; [|done].
    intros [= <-]. by rewrite (IH r eq_refl).
Qed.

Lemma string_app_inj_r suf s1 s2 : s1 +:+ suf = s2 +:+ suf → s1 = s2.
Proof.
  intros Heq. apply (f_equal (strip_suffix suf)) in Heq.
  rewrite !strip_suffix_app in Heq. by simplify_eq.
Qed.

(** No name ends in both extensions. *)
Lemma yml_not_yaml s r : s +:+ ".yml" ≠ r +:+ ".yaml".
Proof.
  revert r. induction s as [|c s IH]; intros [|c' r] Heq; simpl in Heq.
  - done.
  - injection Heq as _ Heq. apply (f_equal String.length) in Heq.
    rewrite string_length_app in Heq. simpl in Heq. lia.
  - injection Heq as _ Heq. destruct s as [|c0 s]; [done|].
    apply (f_equal String.length) in Heq.
    rewrite string_length_app in Heq. simpl in Heq. lia.
  - injection Heq as _ Heq. by apply IH in Heq.
Qed.


Lemma schemaNameOf_yaml name : schemaNameOf (name +:+ ".yaml") = name.
Proof. unfold schemaNameOf. by rewrite strip_suffix_app. Qed.

Lemma schemaNameOf_yml name : schemaNameOf (name +:+ ".yml") = name.
Proof.
  unfold schemaNameOf.
  destruct (strip_suffix ".yaml" (name +:+ ".yml")) as [r|] eqn:Hr.
  - apply strip_suffix_Some in Hr. by apply yml_not_yaml in Hr.
  - by rewrite strip_suffix_app.
Qed.


End FileNames.

(** ** The whole collection *)


(** ** The service *)

Section ServiceProperties.

Context {S C : Type} `{!Store.VersionStore S} `{!Files C}.

Implicit Types (sv : Service) (w : World (S:=S) (C:=C)).

Lemma initVersionStore_initialised (baseDir dir : string) :
  dir ≠ "" →
  initialised (initVersionStore baseDir dir) dir
    {| baseDir := baseDir; maxVersions := 100 |}.
Proof. done. Qed.

Lemma requireSchemasDir_initialised sv dir opts w :
  initialised sv dir opts → requireSchemasDir sv w = (Ok dir, w).
Proof.
  intros (Hd & Hne & _). unfold requireSchemasDir. rewrite Hd.
  by rewrite (proj2 (String.eqb_neq dir "")).
Qed.

Lemma getStore_initialised sv dir opts w :
  initialised sv dir opts → getStore sv w = (Ok opts, w).
Proof. intros (_ & _ & Hs). unfold getStore. by rewrite Hs. Qed.

(** C8. Before [initVersionStore] every exported operation throws (the
    store or the schemas directory is not initialised) and leaves the world
    as it was: no store access and no file input or output is performed. *)
Theorem uninitialised_operations_throw w (v fromVersion toVersion : Z)
    (description : option string) :
  let noStore := Error "Version store not initialized. Call initVersionStore first." in
  let noDir := Error "Schemas directory not initialized" in
  listVersions uninitialised w = (Throw noStore, w)
  ∧ getVersion uninitialised v w = (Throw noStore, w)
  ∧ getLatestVersion uninitialised w = (Throw noStore, w)
  ∧ diffVersions uninitialised fromVersion toVersion w = (Throw noStore, w)
  ∧ getPendingChanges uninitialised w = (Throw noDir, w)
  ∧ createVersion uninitialised description w = (Throw noDir, w)
  ∧ discardChanges uninitialised w = (Throw noDir, w).
Proof. repeat split. Qed.

(** *** Pending changes *)

Lemma getPendingChanges_run sv dir opts w (schemas snap : obj) :
  initialised sv dir opts →
  loadSchemas dir (files w) = Ok schemas →
  schemasToSnapshot schemas = Ok snap →
  let latest := Store.readLatestVersion opts (versions w) in
  getPendingChanges sv w =
  (Ok {| hasChanges := 0 <? length (computeChanges latest snap);
         pendingChanges := computeChanges latest snap;
         currentSchemaCount := length (obj_keys snap);
         previousSchemaCount :=
           match latest with
           | None => 0
           | Some v => length (obj_keys (snapshot v))
           end;
         latestVersion := version <$> latest |},
   log (StoreAccess "readLatestVersion") (log (LoadSchemas dir) w)).
Proof.
  intros Hinit Hload Hsnap. unfold getPendingChanges, mbind, M_bind.
  rewrite (requireSchemasDir_initialised _ _ _ _ Hinit).
  rewrite (getStore_initialised _ _ _ _ Hinit).
  unfold io_loadSchemas. rewrite Hload. unfold lift. rewrite Hsnap.
  reflexivity.
Qed.


(** C9. With an empty store and an empty schema collection
    [getPendingChanges] succeeds and reports no changes, no schemas on
    either side and no latest version. *)
Theorem getPendingChanges_empty sv dir opts w :
  initialised sv dir opts →
  loadSchemas dir (files w) = Ok [] →
  Store.readLatestVersion opts (versions w) = None →
  (getPendingChanges sv w).1 =
  Ok {| hasChanges := false; pendingChanges := []; currentSchemaCount := 0;
        previousSchemaCount := 0; latestVersion := None |}.
Proof.
  intros Hinit Hload Hlatest.
  by rewrite (getPendingChanges_run _ _ _ _ [] [] Hinit Hload eq_refl), Hlatest.
Qed.

(** *** New versions *)

Lemma createVersion_rejects sv dir opts w (schemas snap : obj)
    (description : option string) :
  initialised sv dir opts →
  loadSchemas dir (files w) = Ok schemas →
  schemasToSnapshot schemas = Ok snap →
  computeChanges (Store.readLatestVersion opts (versions w)) snap = [] →
  createVersion sv description w =
  (Throw (Error "No changes to create version"),
   log (StoreAccess "readLatestVersion") (log (LoadSchemas dir) w)).
Proof.
  intros Hinit Hload Hsnap Hchanges. unfold createVersion, mbind, M_bind.
  rewrite (requireSchemasDir_initialised _ _ _ _ Hinit).
  rewrite (getStore_initialised _ _ _ _ Hinit).
  unfold io_loadSchemas. rewrite Hload. unfold lift. rewrite Hsnap.
  unfold store_read. cbn [versions log]. rewrite Hchanges. reflexivity.
Qed.

(** C3. Whenever the computed change list is empty, [createVersion]
    throws "No changes to create version" and the store (and the schemas
    directory) stay as they were.  This is the case when the store is empty
    and there is no current schema, and when the current snapshot is the
    latest version's snapshot, the diff of a snapshot with itself being
    empty. *)
Theorem createVersion_without_changes sv dir opts w (schemas snap : obj)
    (description : option string) :
  initialised sv dir opts →
  loadSchemas dir (files w) = Ok schemas →
  schemasToSnapshot schemas = Ok snap →
  let latest := Store.readLatestVersion opts (versions w) in
  let rejected :=
    ∃ w', createVersion sv description w =
            (Throw (Error "No changes to create version"), w')
          ∧ versions w' = versions w ∧ files w' = files w in
  (computeChanges latest snap = [] → rejected)
  ∧ (latest = None → schemas = [] → rejected)
  ∧ (∀ v, latest = Some v → snapshot v = snap →
       Store.computeSnapshotDiff snap snap = [] → rejected).
Proof.
  intros Hinit Hload Hsnap latest rejected.
  assert (computeChanges latest snap = [] → rejected) as Hrej.
  { intros Hchanges. eexists.
    split; [by apply (createVersion_rejects _ _ _ _ _ _ _ Hinit Hload Hsnap)|].
    by split. }
  split; [done|]. split.
  - intros Hl ->. injection Hsnap as <-. apply Hrej. by rewrite Hl.
  - intros v Hl Hv Hdiff. apply Hrej. rewrite Hl. simpl. by rewrite Hv.
Qed.

(** *** Discard *)

Lemma elem_of_filter_bool {A} (p : A → bool) (l : list A) (x : A) :
  x ∈ List.filter p l ↔ x ∈ l ∧ p x = true.
Proof. rewrite !list_elem_of_In. apply filter_In. Qed.

Lemma filter_filter_bool {A} (p q : A → bool) (l : list A) :
  List.filter q (List.filter p l) = List.filter (λ x, p x && q x) l.
Proof.
  induction l as [|x l IH]; simpl; [done|].
  destruct (p x); simpl; [|done]. destruct (q x); by rewrite IH.
Qed.

Lemma elem_of_readdir (fs : gmap string C) (f : string) :
  f ∈ (map_to_list fs).*1 ↔ is_Some (fs !! f).
Proof.
  rewrite list_elem_of_fmap. split.
  - intros ([f' c] & -> & Hin). apply elem_of_map_to_list in Hin. by eexists.
  - intros [c Hc]. exists (f, c). split; [done|]. by apply elem_of_map_to_list.
Qed.

Lemma elem_of_staleFiles (snapshot : obj) (fs : gmap string C) (f : string) :
  f ∈ staleFiles snapshot fs ↔
  is_Some (fs !! f) ∧ isYamlFile f = true ∧ schemaNameOf f ∉ obj_keys snapshot.
Proof.
  unfold staleFiles. rewrite elem_of_filter_bool, elem_of_readdir.
  rewrite andb_true_iff, negb_true_iff, bool_decide_eq_false. tauto.
Qed.


Lemma restoreLoop_run (dir : string) (es : obj) (n : nat) w :
  directory w = true →
  Forall (λ e : string * value, is_Ok (snapshotToYaml e.2) = true) es →
  NoDup (obj_keys es) →
  ∃ w',
    restoreLoop dir es n w = (Ok (n + length es), w')
    ∧ versions w' = versions w
    ∧ directory w' = true
    ∧ (∀ name s, (name, s) ∈ es →
         ∃ doc, snapshotToYaml s = Ok doc
                ∧ files w' !! (name +:+ ".yaml") = Some (stringify doc))
    ∧ (∀ f, (∀ name, name ∈ obj_keys es → f ≠ name +:+ ".yaml") →
         files w' !! f = files w !! f).
Proof.
  revert n w. induction es as [|[name s] es IH]; intros n w Hdir Hok Hnd.
  - exists w. simpl. rewrite Nat.add_0_r.
    split; [done|]. split; [done|]. split; [done|]. split; [|done].
    intros ?? Hin. by apply elem_of_nil in Hin.
  - apply Forall_cons in Hok as [Hs Hok]. simpl in Hs, Hnd.
    apply NoDup_cons in Hnd as [Hname Hnd].
    destruct (snapshotToYaml s) as [doc|] eqn:Hdoc; [|done].
    cbn [restoreLoop]. unfold mbind, M_bind, lift. rewrite Hdoc.
    unfold io_writeFile. rewrite Hdir.
    set (w1 := log _ _).
    destruct (IH (n + 1) w1 Hdir Hok Hnd) as (w' & -> & Hv & Hd & Hwritten & Hframe).
    exists w'. split; [f_equal; f_equal; simpl; lia|]. split; [done|]. split; [done|].
    split.
    + intros name' s' [[= -> ->]|Hin]%elem_of_cons; [|by apply Hwritten].
      exists doc. split; [done|]. rewrite Hframe.
      * apply lookup_insert_eq.
      * intros name' Hin Heq%string_app_inj_r. by subst.
    + intros f Hf. rewrite Hframe.
      * apply lookup_insert_ne. intros Heq. apply (Hf name); [by left|done].
      * intros name' Hin. apply Hf. by right.
Qed.

(** Whether it returns or throws, the restore loop changes no file but
    the [<name>.yaml] of the schemas it is given. *)
Lemma restoreLoop_frame (dir : string) (es : obj) (n : nat) w (f : string) :
  (∀ name, name ∈ obj_keys es → f ≠ name +:+ ".yaml") →
  files (restoreLoop dir es n w).2 !! f = files w !! f.
Proof.
  revert n w. induction es as [|[name s] es IH]; intros n w Hf; [done|].
  cbn [restoreLoop]. unfold mbind, M_bind, lift.
  destruct (snapshotToYaml s) as [doc|]; [|done].
  unfold io_writeFile. destruct (directory w); [|done].
  rewrite IH by (intros name' Hin; apply Hf; by right).
  apply lookup_insert_ne. intros Heq. apply (Hf name); [by left|done].
Qed.

(** The restore loop returns only if every conversion does. *)
Lemma restoreLoop_Ok (dir : string) (es : obj) (n k : nat) w w' :
  restoreLoop dir es n w = (Ok k, w') →
  Forall (λ e : string * value, is_Ok (snapshotToYaml e.2) = true) es.
Proof.
  revert n w. induction es as [|[name s] es IH]; intros n w; [done|].
  cbn [restoreLoop]. unfold mbind, M_bind, lift.
  destruct (snapshotToYaml s) as [doc|] eqn:Hdoc; [|done].
  unfold io_writeFile. destruct (directory w); [|done].
  intros Hrun. constructor; [simpl; by rewrite Hdoc|]. by eapply IH.
Qed.

Lemma deleteLoop_run (dir : string) (names : gset string) (l : list string)
    (n : nat) w :
  directory w = true →
  NoDup l →
  (∀ f, f ∈ l → is_Some (files w !! f)) →
  ∃ w',
    deleteLoop dir names l n w =
      (Ok (n + length (List.filter (λ f, negb (bool_decide (schemaNameOf f ∈ names))) l)), w')
    ∧ versions w' = versions w
    ∧ directory w' = true
    ∧ (∀ f, files w' !! f =
            if bool_decide (f ∈ l ∧ schemaNameOf f ∉ names) then None
            else files w !! f).
Proof.
  revert n w. induction l as [|file l IH]; intros n w Hdir Hnd Hpresent.
  - exists w. simpl. rewrite Nat.add_0_r.
    by split; [|split; [|split]].
  - apply NoDup_cons in Hnd as [Hfile Hnd].
    cbn [deleteLoop List.filter]. case_bool_decide as Hname; cbn [negb].
    + destruct (IH n w Hdir Hnd) as (w' & -> & Hv & Hd & Hfiles).
      { intros f Hf. apply Hpresent. by right. }
      exists w'. split; [done|]. split; [done|]. split; [done|].
      intros f. rewrite Hfiles.
      apply (f_equal (λ b : bool, if b then None else files w !! f)).
      apply bool_decide_ext. rewrite elem_of_cons.
      split; [tauto|]. intros [[->|?] ?]; tauto.
    + unfold mbind, M_bind, io_unlink. rewrite Hdir.
      rewrite bool_decide_eq_true_2 by (apply Hpresent; by left).
      cbn [andb]. set (w1 := log _ _).
      destruct (IH (n + 1) w1 Hdir Hnd) as (w' & -> & Hv & Hd & Hfiles).
      { intros f Hf. subst w1. cbn [files log setFiles].
        rewrite lookup_delete_ne by (intros ->; done).
        apply Hpresent. by right. }
      exists w'. split; [f_equal; f_equal; simpl; lia|]. split; [done|]. split; [done|].
      intros f. rewrite Hfiles. subst w1. cbn [files log setFiles].
      destruct (decide (f = file)) as [->|Hne].
      * rewrite lookup_delete_eq. rewrite (bool_decide_eq_true_2 (file ∈ file :: l ∧ _)).
        -- by case_bool_decide.
        -- split; [by left|done].
      * rewrite lookup_delete_ne by done.
        apply (f_equal (λ b : bool, if b then None else files w !! f)).
        apply bool_decide_ext. rewrite elem_of_cons. split; [tauto|].
        intros [[?|?] ?]; [done|tauto].
Qed.

(** Whether it returns or throws, the delete loop leaves a file as it
    was or has removed it, and it removes only listed files whose base
    name is not among [names]. *)
Lemma deleteLoop_frame (dir : string) (names : gset string) (l : list string)
    (n : nat) w (f : string) :
  files (deleteLoop dir names l n w).2 !! f = files w !! f
  ∨ (files (deleteLoop dir names l n w).2 !! f = None
     ∧ f ∈ l ∧ schemaNameOf f ∉ names).
Proof.
  revert n w. induction l as [|file l IH]; intros n w; [by left|].
  cbn [deleteLoop]. case_bool_decide as Hname.
  - destruct (IH n w) as [Heq|(Hnone & Hin & Hf)]; [by left|].
    right. split; [done|]. split; [by right|done].
  - unfold mbind, M_bind, io_unlink.
    destruct (directory w && bool_decide (is_Some (files w !! file))); [|by left].
    set (w1 := log _ _).
    destruct (IH (n + 1) w1) as [Heq|(Hnone & Hin & Hf)].
    + rewrite Heq. subst w1. cbn [files log setFiles].
      destruct (decide (f = file)) as [->|Hne].
      * right. rewrite lookup_delete_eq. split; [done|]. split; [by left|done].
      * left. by rewrite lookup_delete_ne.
    + right. split; [done|]. split; [by right|done].
Qed.

(** What a run of [discardChanges] on a stored version does to an
    existing schemas directory. *)
Lemma discardChanges_run sv dir opts w (latest : VersionFile) :
  initialised sv dir opts →
  Store.readLatestVersion opts (versions w) = Some latest →
  directory w = true →
  NoDup (obj_keys (snapshot latest)) →
  Forall (λ e : string * value, is_Ok (snapshotToYaml e.2) = true) (snapshot latest) →
  ∃ w',
    discardChanges sv w =
      (Ok {| restored := length (snapshot latest);
             deleted := length (staleFiles (snapshot latest) (files w)) |}, w')
    ∧ versions w' = versions w
    ∧ directory w' = true
    ∧ (∀ name s, (name, s) ∈ snapshot latest →
         ∃ doc, snapshotToYaml s = Ok doc
                ∧ files w' !! (name +:+ ".yaml") = Some (stringify doc))
    ∧ (∀ f, f ∈ staleFiles (snapshot latest) (files w) → files w' !! f = None)
    ∧ (∀ f, f ∉ staleFiles (snapshot latest) (files w) →
         (∀ name, name ∈ obj_keys (snapshot latest) → f ≠ name +:+ ".yaml") →
         files w' !! f = files w !! f).
Proof.
  intros Hinit Hlatest Hdir Hnd Hok. unfold discardChanges, mbind, M_bind.
  rewrite (requireSchemasDir_initialised _ _ _ _ Hinit).
  rewrite (getStore_initialised _ _ _ _ Hinit).
  unfold store_read. rewrite Hlatest. unfold io_readdir. cbn [files directory log].
  rewrite Hdir. set (w2 := log (Readdir dir) _).
  destruct (restoreLoop_run dir (snapshot latest) 0 w2 Hdir Hok Hnd)
    as (w3 & -> & Hv3 & Hd3 & Hwritten & Hframe).
  set (names := list_to_set (obj_keys (snapshot latest)) : gset string).
  destruct (deleteLoop_run dir names (List.filter isYamlFile (map_to_list (files w)).*1) 0 w3)
    as (w4 & -> & Hv4 & Hd4 & Hfiles); [done| | |].
  { apply NoDup_ListNoDup, List.NoDup_filter, NoDup_ListNoDup, NoDup_fst_map_to_list. }
  { intros f [Hf _]%elem_of_filter_bool. apply elem_of_readdir in Hf as [c Hc].
    destruct (decide (Exists (λ name, f = name +:+ ".yaml") (obj_keys (snapshot latest))))
      as [Hex|Hnex].
    - apply Exists_exists in Hex as (name & [[n s] [-> Hin]]%list_elem_of_fmap & ->).
      destruct (Hwritten _ _ Hin) as (doc & _ & Hfile). simpl. rewrite Hfile. by eexists.
    - rewrite Hframe; [by eexists|].
      intros name Hin Heq. apply Hnex, Exists_exists. by exists name. }
  assert (∀ name, name ∈ names ↔ name ∈ obj_keys (snapshot latest))
    as Hnames by (intros name; apply elem_of_list_to_set).
  assert (∀ f, (f ∈ List.filter isYamlFile (map_to_list (files w)).*1
                ∧ schemaNameOf f ∉ names)
               ↔ f ∈ staleFiles (snapshot latest) (files w)) as Hstale.
  { intros f. rewrite elem_of_staleFiles, elem_of_filter_bool, elem_of_readdir, Hnames.
    tauto. }
  exists w4. split; [|split; [by rewrite Hv4, Hv3|split; [done|split; [|split]]]].
  - rewrite filter_filter_bool. unfold mret, M_ret. simpl. do 3 f_equal.
    unfold staleFiles. f_equal. apply List.filter_ext. intros f. f_equal. f_equal.
    apply bool_decide_ext, Hnames.
  - intros name s Hin. destruct (Hwritten name s Hin) as (doc & Hdoc & Hfile).
    exists doc. split; [done|]. rewrite Hfiles, bool_decide_eq_false_2; [done|].
    rewrite schemaNameOf_yaml, Hnames. intros [_ Hname]. apply Hname.
    by apply (list_elem_of_fmap_2 fst) in Hin.
  - intros f Hf. rewrite Hfiles, bool_decide_eq_true_2; [done|]. by apply Hstale.
  - intros f Hf Hother. rewrite Hfiles, bool_decide_eq_false_2 by (by rewrite Hstale).
    by rewrite Hframe.
Qed.

(** Whether it returns or throws, [discardChanges] leaves a file as it
    was, or it is the [<name>.yaml] of a schema of the snapshot, or it is a
    schema file with a base name outside the snapshot and has been
    removed. *)
Lemma discardChanges_frame sv dir opts w (latest : VersionFile) (f : string) :
  initialised sv dir opts →
  Store.readLatestVersion opts (versions w) = Some latest →
  files (discardChanges sv w).2 !! f = files w !! f
  ∨ (∃ name, name ∈ obj_keys (snapshot latest) ∧ f = name +:+ ".yaml")
  ∨ (files (discardChanges sv w).2 !! f = None ∧ isYamlFile f = true
     ∧ schemaNameOf f ∉ obj_keys (snapshot latest)).
Proof.
  intros Hinit Hlatest.
  destruct (decide (Exists (λ name, f = name +:+ ".yaml") (obj_keys (snapshot latest))))
    as [Hex|Hnex].
  { right. left. apply Exists_exists in Hex as (name & ? & ?). by exists name. }
  assert (∀ name, name ∈ obj_keys (snapshot latest) → f ≠ name +:+ ".yaml") as Hother.
  { intros name Hin Heq. apply Hnex, Exists_exists. by exists name. }
  unfold discardChanges, mbind, M_bind.
  rewrite (requireSchemasDir_initialised _ _ _ _ Hinit).
  rewrite (getStore_initialised _ _ _ _ Hinit).
  unfold store_read. rewrite Hlatest. unfold io_readdir. cbn [files directory log].
  destruct (directory w); [|by left].
  set (w2 := log (Readdir dir) _).
  pose proof (restoreLoop_frame dir (snapshot latest) 0 w2 f Hother) as Hrestore.
  destruct (restoreLoop dir (snapshot latest) 0 w2) as [[n|e] w3];
    cbn [snd] in Hrestore |- *; [|left; by rewrite Hrestore].
  set (names := list_to_set (obj_keys (snapshot latest)) : gset string).
  pose proof (deleteLoop_frame dir names
                (List.filter isYamlFile (map_to_list (files w)).*1) 0 w3 f) as Hdelete.
  subst w2. cbn [files log] in Hrestore.
  destruct (deleteLoop dir names _ 0 w3) as [[k|e] w4];
    unfold mret, M_ret; cbn [snd] in Hdelete |- *;
    (destruct Hdelete as [Heq|(Hnone & [_ Hyaml]%elem_of_filter_bool & Hname)];
     [left; by rewrite Heq, Hrestore|]);
    right; right; (split; [done|]); (split; [done|]);
    intros Hin; apply Hname; by apply elem_of_list_to_set.
Qed.

(** [discardChanges] returns only from an existing directory and only if
    every schema of the snapshot converts. *)
Lemma discardChanges_Ok sv dir opts w (latest : VersionFile) r w' :
  initialised sv dir opts →
  Store.readLatestVersion opts (versions w) = Some latest →
  discardChanges sv w = (Ok r, w') →
  directory w = true
  ∧ Forall (λ e : string * value, is_Ok (snapshotToYaml e.2) = true) (snapshot latest).
Proof.
  intros Hinit Hlatest. unfold discardChanges, mbind, M_bind.
  rewrite (requireSchemasDir_initialised _ _ _ _ Hinit).
  rewrite (getStore_initialised _ _ _ _ Hinit).
  unfold store_read. rewrite Hlatest. unfold io_readdir. cbn [files directory log].
  destruct (directory w); [|done].
  set (w2 := log (Readdir dir) _).
  destruct (restoreLoop dir (snapshot latest) 0 w2) as [[n|e] w3] eqn:Hrestore; [|done].
  intros _. split; [done|]. by eapply restoreLoop_Ok.
Qed.


(** C10. On every run, returning or throwing, [discardChanges] writes
    only files named [<name>.yaml] for the schemas of the snapshot and
    deletes only schema files whose base name is not a key of the snapshot;
    so for a schema of the snapshot that is stored as [<name>.yml], that
    file keeps its content.  When [discardChanges] returns, [<name>.yaml]
    holds the restored content, so that both files exist. *)
Theorem discardChanges_keeps_yml sv dir opts w (latest : VersionFile) :
  initialised sv dir opts →
  Store.readLatestVersion opts (versions w) = Some latest →
  let w' := (discardChanges sv w).2 in
  (∀ f, files w' !! f ≠ files w !! f →
     (∃ name, name ∈ obj_keys (snapshot latest) ∧ f = name +:+ ".yaml")
     ∨ (files w' !! f = None ∧ isYamlFile f = true
        ∧ schemaNameOf f ∉ obj_keys (snapshot latest)))
  ∧ (∀ name old,
       name ∈ obj_keys (snapshot latest) →
       files w !! (name +:+ ".yml") = Some old →
       files w' !! (name +:+ ".yml") = Some old)
  ∧ (∀ r, (discardChanges sv w).1 = Ok r →
       NoDup (obj_keys (snapshot latest)) →
       ∀ name s, (name, s) ∈ snapshot latest →
         ∃ doc, snapshotToYaml s = Ok doc
                ∧ files w' !! (name +:+ ".yaml") = Some (stringify doc)).
Proof.
  intros Hinit Hlatest w'. subst w'. split; [|split].
  - intros f Hchanged.
    by destruct (discardChanges_frame sv dir opts w latest f Hinit Hlatest) as [?|?].
  - intros name old Hin Hold.
    destruct (discardChanges_frame sv dir opts w latest (name +:+ ".yml") Hinit Hlatest)
      as [Heq|[(name' & _ & Heq)|(_ & _ & Hname)]].
    + by rewrite Heq.
    + by apply yml_not_yaml in Heq.
    + by rewrite schemaNameOf_yml in Hname.
  - intros r Hr Hnd name s Hin.
    destruct (discardChanges sv w) as [res w'] eqn:Hrun. simpl in Hr. subst res.
    destruct (discardChanges_Ok _ _ _ _ _ _ _ Hinit Hlatest Hrun) as [Hdir Hok].
    destruct (discardChanges_run _ _ _ _ _ Hinit Hlatest Hdir Hnd Hok)
      as (w'' & Hrun' & _ & _ & Hwritten & _).
    rewrite Hrun in Hrun'. injection Hrun' as _ <-. by apply Hwritten.
Qed.

End ServiceProperties.

(** ** Restoring a snapshot and reading it back *)

Lemma schemaSnapshot_kind (schema : value) (properties : obj) (indexes : list value) :
  snapshotField (schemaSnapshot schema properties indexes) "kind" =
  Some (if nullish (own schema "kind") then VStr "object" else own schema "kind").
Proof. reflexivity. Qed.

(** C1. The snapshot of a pivot schema is one that normalisation
    produces; [snapshotToYaml] converts it to a document without [kind];
    and every schema read back from a document without [kind] normalises
    to kind [object], hence not to the stored snapshot. *)
Theorem snapshotToYaml_drops_pivot_kind :
  schemaToSnapshot rawPivot = Ok pivotSnapshot
  ∧ snapshotToYaml pivotSnapshot =
      Ok (VObj [ ("properties",
                  VObj [ ("role_id", VObj [("type", VStr "Int")]);
                         ("user_id", VObj [("type", VStr "Int")]) ]) ])
  ∧ (∀ parsed snap : value,
       own parsed "kind" = VUndef →
       schemaToSnapshot parsed = Ok snap →
       snapshotField snap "kind" = Some (VStr "object") ∧ snap ≠ pivotSnapshot).
Proof.
  split; [reflexivity|]. split; [reflexivity|].
  intros parsed snap Hkind (properties & indexes & _ & _ & ->)%schemaToSnapshot_Ok.
  assert (snapshotField (schemaSnapshot parsed properties indexes) "kind"
          = Some (VStr "object")) as Hk.
  { by rewrite schemaSnapshot_kind, Hkind. }
  split; [done|]. intros Heq. by rewrite Heq in Hk.
Qed.

(** * Further properties *)

(** ** What the normaliser reads and when it throws *)

Lemma schemaToSnapshot_unfold (schema : value) :
  nullish schema = false →
  schemaToSnapshot schema =
  (properties ← normalisedProperties schema;
   indexes ← allIndexes (own schema "options");
   Ok (schemaSnapshot schema properties indexes)).
Proof.
  intros Hs. unfold schemaToSnapshot, normalisedProperties.
  rewrite !get_defined by done. reflexivity.
Qed.

Lemma propertiesLoop_throws (es acc : obj) (e : error) :
  propertiesLoop es acc = Throw e → isTypeError e.
Proof.
  revert acc. induction es as [|[k p] es IH]; intros acc; simpl; [done|].
  unfold propertyToSnapshot, get. destruct (nullish p); simpl.
  - intros [= <-]. by eexists.
  - apply IH.
Qed.

Lemma entries_throws (v : value) (e : error) : entries v = Throw e → isTypeError e.
Proof. destruct v; simpl; try done; intros [= <-]; by eexists. Qed.

Lemma mapM_throws {A B} (f : A → result B) (l : list A) (e : error) :
  mapM f l = Throw e → ∃ x, x ∈ l ∧ f x = Throw e.
Proof.
  induction l as [|x l IH]; simpl; [done|].
  destruct (f x) as [y|e'] eqn:Hx; simpl.
  - destruct (mapM f l) as [ys|e'] eqn:Hl; simpl; [done|].
    intros [= <-]. destruct (IH eq_refl) as (x' & ? & ?). exists x'. split; [by right|done].
  - intros [= <-]. exists x. split; [by left|done].
Qed.

Lemma indexSnapshot_throws (idx : value) (e : error) :
  indexSnapshot idx = Throw e → isTypeError e.
Proof.
  unfold indexSnapshot, get. destruct (nullish idx); simpl; [|done].
  intros [= <-]. by eexists.
Qed.

Lemma optional_map_throws (v : value) (f : value → result value) (e : error) :
  (∀ x e', f x = Throw e' → isTypeError e') →
  optional_map v (λ _ x, f x) = Throw e → isTypeError e.
Proof.
  intros Hf. unfold optional_map. destruct (nullish v); [done|].
  destruct v; try (intros [= <-]; by eexists).
  rewrite array_map_values. intros (x & _ & Hx)%mapM_throws. by eapply Hf.
Qed.

Lemma allIndexes_throws (opts : value) (e : error) :
  allIndexes opts = Throw e → isTypeError e.
Proof.
  unfold allIndexes.
  destruct (optional_map (optget opts "indexes") _) as [ixs|e'] eqn:Hi; simpl.
  - destruct (optional_map (optget opts "unique") _) as [us|e'] eqn:Hu; simpl; [done|].
    intros [= <-]. revert Hu. unfold optional_map.
    destruct (nullish (optget opts "unique")); [done|].
    destruct (optget opts "unique"); try (intros [= <-]; by eexists).
    by rewrite array_map_total.
  - intros [= <-]. revert Hi. apply optional_map_throws. apply indexSnapshot_throws.
Qed.

(** The normaliser of one schema returns exactly on the [normalizable]
    schemas, and every error it throws is a [TypeError]. *)
Lemma schemaToSnapshot_outcome (schema : value) :
  is_Ok (schemaToSnapshot schema) = normalizable schema
  ∧ (∀ e, schemaToSnapshot schema = Throw e → ∃ msg, e = TypeError msg).
Proof.
  split.
  - destruct (schemaToSnapshot schema) as [snap|e] eqn:Hs; simpl.
    + by apply schemaToSnapshot_Ok in Hs as (? & ? & -> & _).
    + destruct (normalizable schema) eqn:Hn; [|done].
      apply schemaToSnapshot_total in Hn as [snap Hsnap]. congruence.
  - intros e. destruct (nullish schema) eqn:Hn.
    + unfold schemaToSnapshot, get. rewrite Hn. simpl. intros [= <-]. by eexists.
    + rewrite schemaToSnapshot_unfold by done. unfold normalisedProperties.
      destruct (truthy (own schema "properties")); simpl.
      * destruct (entries (own schema "properties")) as [es|e'] eqn:He; simpl.
        -- destruct (propertiesLoop es []) as [ps|e'] eqn:Hp; simpl.
           ++ destruct (allIndexes (own schema "options")) as [ix|e'] eqn:Hi; simpl; [done|].
              intros [= <-]. by eapply allIndexes_throws.
           ++ intros [= <-]. by eapply propertiesLoop_throws.
        -- intros [= <-]. by eapply entries_throws.
      * destruct (allIndexes (own schema "options")) as [ix|e'] eqn:Hi; simpl; [done|].
        intros [= <-]. by eapply allIndexes_throws.
Qed.

(** X1. The snapshot of a schema depends on its [name], [kind],
    [properties], [options] and [values] only: two schemas that agree on
    these five fields get the same snapshot, or throw the same error,
    whatever else they hold. *)
Theorem schemaToSnapshot_reads_five_fields (s1 s2 : value) :
  nullish s1 = false → nullish s2 = false →
  (∀ k, k ∈ schemaFields → own s1 k = own s2 k) →
  schemaToSnapshot s1 = schemaToSnapshot s2.
Proof.
  intros H1 H2 Heq. rewrite !schemaToSnapshot_unfold by done.
  unfold normalisedProperties, schemaSnapshot.
  rewrite (Heq "name"), (Heq "kind"), (Heq "properties"), (Heq "options"), (Heq "values");
    try reflexivity; by apply (bool_decide_unpack _).
Qed.

(** ** Snapshots are normal forms *)

Lemma is_undefined_true (v : value) : is_undefined v = true → v = VUndef.
Proof. by destruct v. Qed.

Lemma own_after_spread (src : value) (k0 : string) (v0 : value) (ks : list string) (k : string) :
  k ≠ k0 → k ∈ ks →
  own (VObj ((k0, v0) :: flat_map (spread_defined src) ks)) k = own src k.
Proof.
  intros Hne Hin. cbn [own obj_lookup].
  rewrite (proj2 (String.eqb_neq k0 k)) by congruence.
  rewrite spread_defined_lookup, bool_decide_eq_true_2 by done.
  destruct (is_undefined (own src k)) eqn:Hu; [|done].
  by rewrite (is_undefined_true _ Hu).
Qed.

Lemma flat_map_spread_ext (a b : value) (ks : list string) :
  (∀ k, k ∈ ks → own a k = own b k) →
  flat_map (spread_defined a) ks = flat_map (spread_defined b) ks.
Proof.
  induction ks as [|k ks IH]; intros Heq; simpl; [done|].
  unfold spread_defined at 1 3. rewrite (Heq k) by (by left).
  rewrite IH; [done|]. intros k' Hk'. apply Heq. by right.
Qed.

Lemma propertyToSnapshot_defined (prop : value) :
  nullish prop = false →
  propertyToSnapshot prop =
  Ok (VObj (("type", own prop "type") :: flat_map (spread_defined prop) optional_attributes)).
Proof. intros Hp. unfold propertyToSnapshot. by rewrite get_defined. Qed.

Lemma spread_object_fixed (src : value) (k0 : string) (ks : list string) :
  k0 ∉ ks →
  let p := VObj ((k0, own src k0) :: flat_map (spread_defined src) ks) in
  VObj ((k0, own p k0) :: flat_map (spread_defined p) ks) = p.
Proof.
  intros Hk0 p. assert (own p k0 = own src k0) as ->.
  { subst p. cbn [own obj_lookup]. by rewrite String.eqb_refl. }
  unfold p at 2. do 2 f_equal. apply flat_map_spread_ext. intros k Hk.
  apply own_after_spread; [|done]. by intros ->.
Qed.

Lemma propertyToSnapshot_fixed (src p : value) :
  propertyToSnapshot src = Ok p → propertyToSnapshot p = Ok p.
Proof.
  intros Hp. assert (nullish src = false) as Hsrc.
  { unfold propertyToSnapshot, get in Hp. by destruct (nullish src). }
  rewrite propertyToSnapshot_defined in Hp by done. injection Hp as <-.
  rewrite propertyToSnapshot_defined by done. f_equal.
  apply (spread_object_fixed src "type" optional_attributes).
  by apply (proj1 (bool_decide_eq_false _)).
Qed.

Lemma indexSnapshot_fixed (idx e : value) :
  indexSnapshot idx = Ok e → indexSnapshot e = Ok e.
Proof.
  intros He. assert (nullish idx = false) as Hidx.
  { unfold indexSnapshot, get in He. by destruct (nullish idx). }
  rewrite indexSnapshot_defined in He by done. injection He as <-.
  rewrite indexSnapshot_defined by done. f_equal.
  apply (spread_object_fixed idx "columns" ["unique"; "name"; "type"]).
  by apply (proj1 (bool_decide_eq_false _)).
Qed.

Lemma uniqueAsIndex_fixed (i : nat) (cols : value) :
  indexSnapshot (uniqueAsIndex i cols) = Ok (uniqueAsIndex i cols).
Proof. reflexivity. Qed.

Lemma obj_keys_put (o : obj) (k : string) (v : value) :
  obj_keys (obj_put o k v) =
  if bool_decide (k ∈ obj_keys o) then obj_keys o else obj_keys o ++ [k].
Proof.
  induction o as [|[k' v'] o IH]; simpl; [done|].
  destruct (String.eqb_spec k' k) as [->|Hne]; simpl.
  - by rewrite bool_decide_eq_true_2 by (by left).
  - rewrite IH. destruct (decide (k ∈ obj_keys o)).
    + rewrite (bool_decide_eq_true_2 (k ∈ obj_keys o)) by done.
      by rewrite (bool_decide_eq_true_2 (k ∈ k' :: obj_keys o)) by (by right).
    + rewrite (bool_decide_eq_false_2 (k ∈ obj_keys o)) by done.
      rewrite (bool_decide_eq_false_2 (k ∈ k' :: obj_keys o)); [done|].
      rewrite elem_of_cons. intros [?|?]; congruence.
Qed.

Lemma obj_set_ordinary (o : obj) (k : string) (v : value) :
  ordinaryKeys o → ordinaryKeys (obj_set o k v).
Proof.
  intros [Hnd Hp]. unfold obj_set.
  destruct (String.eqb_spec k "__proto__") as [->|Hne]; [done|].
  unfold ordinaryKeys. rewrite obj_keys_put. case_bool_decide; [done|].
  split.
  - apply NoDup_app. split; [done|]. split; [|apply NoDup_singleton].
    intros x Hx ->%list_elem_of_singleton. done.
  - rewrite elem_of_app, list_elem_of_singleton. intros [?|?]; congruence.
Qed.

Lemma obj_set_values (P : value → Prop) (o : obj) (k : string) (v : value) :
  Forall (λ e : string * value, P e.2) o → P v →
  Forall (λ e : string * value, P e.2) (obj_set o k v).
Proof.
  intros Ho Hv. unfold obj_set. destruct (String.eqb k "__proto__"); [done|].
  induction Ho as [|[k' v'] o Hx Ho IH]; simpl.
  - by constructor.
  - destruct (String.eqb k' k); by constructor.
Qed.

Lemma propertiesLoop_normal (es acc ps : obj) :
  propertiesLoop es acc = Ok ps →
  ordinaryKeys acc →
  Forall (λ e : string * value, propertyToSnapshot e.2 = Ok e.2) acc →
  ordinaryKeys ps ∧ Forall (λ e : string * value, propertyToSnapshot e.2 = Ok e.2) ps.
Proof.
  revert acc. induction es as [|[k p] es IH]; intros acc; simpl.
  - by intros [= <-].
  - destruct (propertyToSnapshot p) as [q|] eqn:Hq; simpl; [|done].
    intros Hloop Hacc Hfix. apply (IH _ Hloop).
    + by apply obj_set_ordinary.
    + apply (obj_set_values (λ v, propertyToSnapshot v = Ok v)); [done|].
      by eapply propertyToSnapshot_fixed.
Qed.

Lemma propertiesLoop_fixed (ps acc : obj) :
  ordinaryKeys (acc ++ ps) →
  Forall (λ e : string * value, propertyToSnapshot e.2 = Ok e.2) ps →
  propertiesLoop ps acc = Ok (acc ++ ps).
Proof.
  revert acc. induction ps as [|[k p] ps IH]; intros acc Hord Hfix; simpl.
  - by rewrite app_nil_r.
  - apply Forall_cons in Hfix as [Hp Hfix]. simpl in Hp. rewrite Hp. simpl.
    destruct Hord as [Hnd Hproto].
    assert (obj_set acc k p = acc ++ [(k, p)]) as ->.
    { unfold obj_set. unfold obj_keys in *. rewrite fmap_app in Hnd, Hproto. simpl in *.
      rewrite (proj2 (String.eqb_neq k "__proto__")).
      - apply obj_put_fresh. apply NoDup_app in Hnd as (_ & Hnd & _).
        intros Hin. apply (Hnd _ Hin). by left.
      - intros ->. apply Hproto. apply elem_of_app. right. by left. }
    rewrite (IH (acc ++ [(k, p)])); [by rewrite <- app_assoc| |done].
    split; by rewrite <- app_assoc.
Qed.

Lemma ordinaryKeys_nil : ordinaryKeys [].
Proof. split; [apply NoDup_nil_2|apply not_elem_of_nil]. Qed.

Lemma normalisedProperties_normal (schema : value) (ps : obj) :
  normalisedProperties schema = Ok ps →
  ordinaryKeys ps ∧ Forall (λ e : string * value, propertyToSnapshot e.2 = Ok e.2) ps.
Proof.
  unfold normalisedProperties. destruct (truthy (own schema "properties")).
  - destruct (entries (own schema "properties")) as [es|]; simpl; [|done].
    intros Hloop. apply (propertiesLoop_normal _ _ _ Hloop); [apply ordinaryKeys_nil|done].
  - intros [= <-]. split; [apply ordinaryKeys_nil|done].
Qed.

Lemma optget_storedOptions (o : obj) (k : string) :
  optget (storedOptions o) k = default VUndef (obj_lookup o k).
Proof. unfold storedOptions. by destruct o. Qed.


Lemma schemaSnapshot_own (schema : value) (ps : obj) (ix : list value) :
  let snap := schemaSnapshot schema ps ix in
  own snap "name" = own schema "name"
  ∧ own snap "kind" =
      (if nullish (own schema "kind") then VStr "object" else own schema "kind")
  ∧ own snap "properties" = (if 0 <? length (obj_keys ps) then VObj ps else VUndef)
  ∧ own snap "values" =
      (if truthy (own schema "values") then own schema "values" else VUndef)
  ∧ own snap "options" = storedOptions (snapshotOptions (own schema "options") ix)
  ∧ (∀ k, k ∉ schemaFields → own snap k = VUndef).
Proof.
  unfold schemaSnapshot, storedOptions.
  set (c1 := 0 <? length (obj_keys ps)).
  set (c2 := truthy (own schema "values")).
  set (c3 := 0 <? length (obj_keys (snapshotOptions (own schema "options") ix))).
  split; [done|]. split; [done|].
  split; [by destruct c1, c2, c3|]. split; [by destruct c1, c2, c3|].
  split; [by destruct c1, c2, c3|].
  intros k Hk. unfold schemaFields in Hk. rewrite !not_elem_of_cons in Hk.
  destruct Hk as (? & ? & ? & ? & ? & _). cbn [own obj_lookup].
  rewrite (proj2 (String.eqb_neq "name" k)), (proj2 (String.eqb_neq "kind" k)) by done.
  rewrite !obj_lookup_app. unfold spread_if.
  destruct c1, c2, c3; cbn [obj_lookup];
    rewrite ?(proj2 (String.eqb_neq "properties" k)), ?(proj2 (String.eqb_neq "values" k)),
      ?(proj2 (String.eqb_neq "options" k)) by done; done.
Qed.

Lemma snapshotOptions_fixed (opts opts' : value) (ix : list value) :
  (∀ k, optget opts' k = default VUndef (obj_lookup (snapshotOptions opts ix) k)) →
  snapshotOptions opts' ix = snapshotOptions opts ix.
Proof.
  intros H. unfold snapshotOptions at 1. rewrite !H, !snapshotOptions_lookup.
  cbn [String.eqb Ascii.eqb Bool.eqb]. rewrite !andb_false_r, !andb_true_r.
  unfold snapshotOptions.
  destruct (is_bool false (optget opts "id")),
    (truthy (optget opts "idType")) eqn:Ht, (is_str "BigInt" (optget opts "idType")) eqn:Hs,
    (is_bool false (optget opts "timestamps")), (is_bool true (optget opts "softDelete")),
    (truthy (optget opts "tableName")) eqn:Hn, (is_bool true (optget opts "translations")),
    (is_bool true (optget opts "authenticatable")), (0 <? length ix);
    simpl; rewrite ?Ht, ?Hs, ?Hn; reflexivity.
Qed.

Lemma Forall_imap_all {A B} (P : B → Prop) (f : nat → A → B) (l : list A) :
  (∀ i x, P (f i x)) → Forall P (imap f l).
Proof.
  revert f. induction l as [|x l IH]; intros f Hf; simpl; constructor; [done|].
  apply IH. intros i y. apply Hf.
Qed.

Lemma mapM_fixed {A} (f : A → result A) (l : list A) :
  Forall (λ x, f x = Ok x) l → mapM f l = Ok l.
Proof.
  intros Hl. apply mapM_result_Forall2. induction Hl; by constructor.
Qed.

Lemma allIndexes_elements_fixed (opts : value) (ix : list value) :
  allIndexes opts = Ok ix → Forall (λ e, indexSnapshot e = Ok e) ix.
Proof.
  intros Hix. pose proof (allIndexes_Ok _ _ Hix) as Hn.
  unfold normalizableOptions in Hn.
  destruct (declaredList (optget opts "indexes")) as [explicit|] eqn:Hi; [|done].
  destruct (declaredList (optget opts "unique")) as [legacy|] eqn:Hu; [|done].
  rewrite (allIndexes_declared _ _ _ Hi Hu) in Hix.
  destruct (mapM indexSnapshot explicit) as [es|] eqn:Hes; [|done].
  simpl in Hix. injection Hix as <-. apply Forall_app. split.
  - apply mapM_result_Forall2 in Hes. clear -Hes.
    induction Hes; constructor; [by eapply indexSnapshot_fixed|done].
  - apply Forall_imap_all. intros i x. apply uniqueAsIndex_fixed.
Qed.

Lemma allIndexes_stored (opts : value) (ix : list value) :
  Forall (λ e, indexSnapshot e = Ok e) ix →
  allIndexes (storedOptions (snapshotOptions opts ix)) = Ok ix.
Proof.
  intros Hfix. unfold allIndexes.
  rewrite !optget_storedOptions, !snapshotOptions_lookup.
  cbn [String.eqb Ascii.eqb Bool.eqb]. rewrite !andb_false_r, andb_true_r.
  destruct ix as [|x ix]; [done|].
  cbn [length Nat.ltb Nat.leb default id optional_map nullish].
  rewrite array_map_values, (mapM_fixed _ _ Hfix). simpl. by rewrite app_nil_r.
Qed.

(** A snapshot is a fixed point of the normaliser. *)
Lemma schemaToSnapshot_fixed (schema snap : value) :
  schemaToSnapshot schema = Ok snap → schemaToSnapshot snap = Ok snap.
Proof.
  intros Hsnap. assert (nullish schema = false) as Hs.
  { unfold schemaToSnapshot, get in Hsnap. by destruct (nullish schema). }
  rewrite schemaToSnapshot_unfold in Hsnap by done.
  destruct (normalisedProperties schema) as [ps|] eqn:Hps; [|done].
  destruct (allIndexes (own schema "options")) as [ix|] eqn:Hix; [|done].
  simpl in Hsnap. injection Hsnap as <-.
  destruct (normalisedProperties_normal _ _ Hps) as [Hord Hfix].
  destruct (schemaSnapshot_own schema ps ix) as (Hn & Hk & Hp & Hv & Ho & _).
  rewrite schemaToSnapshot_unfold by done.
  assert (normalisedProperties (schemaSnapshot schema ps ix) = Ok ps) as ->.
  { unfold normalisedProperties. rewrite Hp. destruct ps as [|p ps]; [done|].
    simpl. by apply (propertiesLoop_fixed (p :: ps) []). }
  rewrite Ho, (allIndexes_stored _ _ (allIndexes_elements_fixed _ _ Hix)). simpl.
  f_equal. unfold schemaSnapshot at 1. rewrite Hn, Hk, Hv, Ho.
  rewrite (snapshotOptions_fixed (own schema "options")) by apply optget_storedOptions.
  unfold schemaSnapshot.
  by destruct (nullish (own schema "kind")) eqn:Hkind, (truthy (own schema "values")) eqn:Hval;
    simpl; rewrite ?Hkind, ?Hval.
Qed.

(** ** Canonical keys *)

Lemma spread_defined_keys (src : value) (ks : list string) :
  sublist (obj_keys (flat_map (spread_defined src) ks)) ks.
Proof.
  induction ks as [|k ks IH]; simpl; [done|].
  unfold spread_defined at 1. destruct (is_undefined (own src k)); simpl.
  - by apply sublist_cons.
  - by apply sublist_skip.
Qed.

Lemma spread_if_keys (c : bool) (k : string) (v : value) :
  sublist (obj_keys (spread_if c k v)) [k].
Proof. destruct c; simpl; [done|]. by apply sublist_cons. Qed.

Lemma obj_keys_app (a b : obj) : obj_keys (a ++ b) = obj_keys a ++ obj_keys b.
Proof. unfold obj_keys. by rewrite fmap_app. Qed.

Lemma assign_if_keys (c : bool) (k : string) (v : value) (o : obj) (ks : list string) :
  sublist (obj_keys o) ks → k ∉ ks → k ≠ "__proto__" →
  sublist (obj_keys (assign_if c k v o)) (ks ++ [k]).
Proof.
  intros Ho Hk Hp. unfold assign_if, obj_set. destruct c.
  - rewrite (proj2 (String.eqb_neq k "__proto__")) by done.
    rewrite obj_keys_put, bool_decide_eq_false_2.
    + by apply sublist_app.
    + intros Hin. apply Hk. by eapply elem_of_sublist.
  - by apply sublist_inserts_r.
Qed.

Lemma snapshotOptions_keys (opts : value) (ix : list value) :
  sublist (obj_keys (snapshotOptions opts ix)) optionKeys.
Proof.
  unfold snapshotOptions.
  repeat (match goal with
          | |- sublist (obj_keys (assign_if _ ?k _ _)) ?ks =>
              apply (assign_if_keys _ k _ _ (removelast ks));
              [| by apply (proj1 (bool_decide_eq_false _)) | done]
          end; cbn [removelast optionKeys]).
  done.
Qed.

Lemma propertyToSnapshot_keys (prop p : value) :
  propertyToSnapshot prop = Ok p → keysAmong propertyKeys p.
Proof.
  intros Hp. assert (nullish prop = false) as Hprop.
  { unfold propertyToSnapshot, get in Hp. by destruct (nullish prop). }
  rewrite propertyToSnapshot_defined in Hp by done.
  exists (("type", own prop "type") :: flat_map (spread_defined prop) optional_attributes).
  split; [congruence|].
  change (sublist ("type" :: obj_keys (flat_map (spread_defined prop) optional_attributes))
            ("type" :: optional_attributes)).
  apply sublist_skip, spread_defined_keys.
Qed.

Lemma propertiesLoop_keys (es acc ps : obj) :
  propertiesLoop es acc = Ok ps →
  Forall (λ e : string * value, keysAmong propertyKeys e.2) acc →
  Forall (λ e : string * value, keysAmong propertyKeys e.2) ps.
Proof.
  revert acc. induction es as [|[k p] es IH]; intros acc; simpl.
  - by intros [= <-].
  - destruct (propertyToSnapshot p) as [q|] eqn:Hq; simpl; [|done].
    intros Hloop Hacc. apply (IH _ Hloop).
    apply (obj_set_values (keysAmong propertyKeys)); [done|].
    by eapply propertyToSnapshot_keys.
Qed.

Lemma indexSnapshot_keys (idx e : value) :
  indexSnapshot idx = Ok e → keysAmong indexKeys e.
Proof.
  intros He. assert (nullish idx = false) as Hidx.
  { unfold indexSnapshot, get in He. by destruct (nullish idx). }
  rewrite indexSnapshot_defined in He by done.
  exists (("columns", own idx "columns")
          :: flat_map (spread_defined idx) ["unique"; "name"; "type"]).
  split; [congruence|].
  change (sublist ("columns" :: obj_keys (flat_map (spread_defined idx) ["unique"; "name"; "type"]))
            ("columns" :: ["unique"; "name"; "type"])).
  apply sublist_skip, spread_defined_keys.
Qed.

Lemma uniqueAsIndex_keys (i : nat) (cols : value) : keysAmong indexKeys (uniqueAsIndex i cols).
Proof.
  eexists. split; [done|]. simpl. do 3 apply sublist_skip. by apply sublist_cons.
Qed.

Lemma allIndexes_keys (opts : value) (ix : list value) :
  allIndexes opts = Ok ix → Forall (keysAmong indexKeys) ix.
Proof.
  intros Hix. pose proof (allIndexes_Ok _ _ Hix) as Hn.
  unfold normalizableOptions in Hn.
  destruct (declaredList (optget opts "indexes")) as [explicit|] eqn:Hi; [|done].
  destruct (declaredList (optget opts "unique")) as [legacy|] eqn:Hu; [|done].
  rewrite (allIndexes_declared _ _ _ Hi Hu) in Hix.
  destruct (mapM indexSnapshot explicit) as [es|] eqn:Hes; [|done].
  simpl in Hix. injection Hix as <-. apply Forall_app. split.
  - apply mapM_result_Forall2 in Hes. clear -Hes.
    induction Hes; constructor; [by eapply indexSnapshot_keys|done].
  - apply Forall_imap_all. intros i x. apply uniqueAsIndex_keys.
Qed.

Lemma schemaToSnapshot_canonical (schema snap : value) :
  schemaToSnapshot schema = Ok snap → canonical snap.
Proof.
  intros Hsnap. assert (nullish schema = false) as Hs.
  { unfold schemaToSnapshot, get in Hsnap. by destruct (nullish schema). }
  rewrite schemaToSnapshot_unfold in Hsnap by done.
  destruct (normalisedProperties schema) as [ps|] eqn:Hps; [|done].
  destruct (allIndexes (own schema "options")) as [ix|] eqn:Hix; [|done].
  simpl in Hsnap. injection Hsnap as <-.
  destruct (schemaSnapshot_own schema ps ix) as (_ & _ & Hp & _ & Ho & _).
  split; [|split; [|split]].
  - unfold keysAmong, schemaSnapshot. cbv zeta. eexists. split; [reflexivity|].
    change (obj_keys (?a :: ?b :: ?l)) with (a.1 :: b.1 :: obj_keys l).
    rewrite !obj_keys_app. do 2 apply sublist_skip.
    apply (sublist_app _ ["properties"]); [apply spread_if_keys|].
    apply (sublist_app _ ["values"] _ ["options"]); apply spread_if_keys.
  - intros ps'. rewrite Hp. destruct (0 <? length (obj_keys ps)); [|done].
    intros [= <-]. unfold normalisedProperties in Hps.
    destruct (truthy (own schema "properties")); [|by injection Hps as <-].
    destruct (entries (own schema "properties")) as [es|]; [|done].
    by apply (propertiesLoop_keys es [] ps).
  - rewrite Ho. unfold storedOptions.
    destruct (0 <? length (obj_keys (snapshotOptions (own schema "options") ix))); [|by left].
    right. eexists. split; [done|]. apply snapshotOptions_keys.
  - intros l. rewrite Ho, optget_storedOptions, snapshotOptions_lookup.
    cbn [String.eqb Ascii.eqb Bool.eqb]. rewrite andb_true_r.
    destruct (0 <? length ix); [|by rewrite !andb_false_r].
    intros [= <-]. by eapply allIndexes_keys.
Qed.

Lemma snapshotLoop_canonical (es acc snap : obj) :
  snapshotLoop es acc = Ok snap →
  Forall (λ e : string * value, canonical e.2) acc →
  Forall (λ e : string * value, canonical e.2) snap.
Proof.
  revert acc. induction es as [|[k p] es IH]; intros acc; simpl.
  - by intros [= <-].
  - destruct (schemaToSnapshot p) as [q|] eqn:Hq; simpl; [|done].
    intros Hloop Hacc. apply (IH _ Hloop).
    apply (obj_set_values canonical); [done|]. by eapply schemaToSnapshot_canonical.
Qed.

(** X2. The keys of a snapshot are bounded at four levels: every schema
    snapshot is an object whose keys are some of [name], [kind],
    [properties], [values] and [options], in this order; each of its
    properties one whose keys are some of [type] and the twenty optional
    attributes, in the order of the source; its options one whose keys are
    some of the eight stored options, in their order; and each of its
    indexes one whose keys are some of [columns], [unique], [name] and
    [type], in this order.  (The order of the property names and what is
    inside a copied value are not bounded: they are those of the
    input.) *)
Theorem schemasToSnapshot_canonical (schemas snap : obj) :
  schemasToSnapshot schemas = Ok snap →
  Forall (λ e : string * value, canonical e.2) snap.
Proof. intros Hsnap. by apply (snapshotLoop_canonical schemas [] snap). Qed.

(** ** Restoring a normal form *)
















(** ** The shape of a restored document *)

Lemma holds_nil (P : string → value → Prop) : holds P [].
Proof. intros k v. done. Qed.

Lemma holds_set (P : string → value → Prop) (o : obj) (k : string) (v : value) :
  holds P o → P k v → holds P (obj_set o k v).
Proof.
  intros Ho Hkv k' v'. unfold obj_set.
  destruct (String.eqb k "__proto__"); [apply Ho|].
  rewrite obj_lookup_put. destruct (String.eqb_spec k k') as [<-|_]; [|apply Ho].
  by intros [= <-].
Qed.

Lemma holds_assign (P : string → value → Prop) (c : bool) (o : obj) (k : string)
    (v : value) :
  holds P o → (c = true → P k v) → holds P (assign_if c k v o).
Proof.
  intros Ho Hkv. unfold assign_if. destruct c; [|done]. apply holds_set; auto.
Qed.

Ltac document_key := split; [by apply (bool_decide_unpack _)|done].

(** X4. Whatever [snapshotToYaml] returns is an object whose keys are
    among [kind], [displayName], [singular], [plural], [titleIndex],
    [group], [properties], [values] and [options]: it never has a [name],
    and its [kind], when present, is ['enum']. *)
Theorem snapshotToYaml_document (snap doc : value) :
  snapshotToYaml snap = Ok doc →
  ∃ fields : obj,
    doc = VObj fields
    ∧ obj_lookup fields "name" = None
    ∧ ∀ k v, obj_lookup fields k = Some v →
        k ∈ documentKeys ∧ (k = "kind" → v = VStr "enum").
Proof.
  unfold snapshotToYaml, get. destruct (nullish snap); [done|].
  cbn [mbind result_bind].
  set (r0 := assign_if _ "group" _ _).
  assert (holds documentEntry r0) as H0.
  { subst r0. repeat (apply holds_assign; [|intros _; document_key]).
    apply holds_nil. }
  clearbody r0.
  assert (∀ r, holds documentEntry r →
    ∃ fields, VObj r = VObj fields ∧ obj_lookup fields "name" = None
      ∧ ∀ k v, obj_lookup fields k = Some v →
          k ∈ documentKeys ∧ (k = "kind" → v = VStr "enum")) as Hfinal.
  { intros r Hr. exists r. split; [done|]. split; [|exact Hr].
    destruct (obj_lookup r "name") as [v|] eqn:Hv; [|done].
    apply Hr in Hv as [Hin _]. exfalso. revert Hin.
    by apply (proj1 (bool_decide_eq_false _)). }
  set (stage1 := if truthy (own snap "properties") then _ else _).
  assert (∀ r1, stage1 = Ok r1 → holds documentEntry r1) as H1.
  { subst stage1. intros r1. destruct (truthy (own snap "properties")); [|by intros [= <-]].
    destruct (entries (own snap "properties")) as [es|]; [|done]. cbn [mbind result_bind].
    destruct (0 <? length (obj_keys es)); [|by intros [= <-]].
    destruct (yamlPropertiesLoop es []) as [ps|]; [|done]. cbn [mbind result_bind].
    intros [= <-]. apply holds_set; [done|document_key]. }
  destruct stage1 as [r1|]; [|done]. specialize (H1 r1 eq_refl). cbn [mbind result_bind].
  set (stage2 := if truthy (own snap "values") then _ else _).
  assert (∀ r2, stage2 = Ok r2 → holds documentEntry r2) as H2.
  { subst stage2. intros r2. destruct (truthy (own snap "values")); [|by intros [= <-]].
    destruct (gt_zero (own (own snap "values") "length")) as [[]|]; [| |done];
      cbn [mbind result_bind]; [|by intros [= <-]].
    destruct (spread (own snap "values")) as [l|]; [|done]. cbn [mbind result_bind].
    intros [= <-]. apply holds_set; [done|document_key]. }
  destruct stage2 as [r2|]; [|done]. specialize (H2 r2 eq_refl). cbn [mbind result_bind].
  destruct (truthy (own snap "options")).
  - destruct (yamlOptions (own snap "options")) as [opts|]; [|done]. cbn [mbind result_bind].
    intros [= <-]. apply Hfinal. apply holds_assign; [done|]. intros _. document_key.
  - intros [= <-]. by apply Hfinal.
Qed.

(** X5. The options block of a restored document holds no default: [id]
    and [timestamps] only as [false]; [softDelete], [translations] and
    [authenticatable] only as [true]; [idType] only when it is truthy and
    not ['BigInt']; [tableName] only when truthy; [indexes] only as a
    non-empty array. *)
Theorem yamlOptions_never_default (options : value) (opts : obj) :
  yamlOptions options = Ok opts →
  ∀ k v, obj_lookup opts k = Some v → nonDefaultOption k v.
Proof.
  unfold yamlOptions.
  set (o := assign_if _ "authenticatable" _ _).
  assert (holds nonDefaultOption o) as Ho.
  { subst o. unfold nonDefaultOption.
    repeat (apply holds_assign; [|intros Hc]); [apply holds_nil|..].
    - left. split; [done|done].
    - apply andb_prop in Hc as [Ht Hs]. right. left. split; [done|]. split; [done|].
      apply is_str_false. by apply negb_true_iff.
    - right. right. left. by split.
    - do 3 right. left. split; [by apply (bool_decide_unpack _)|done].
    - do 4 right. left. by split.
    - do 3 right. left. split; [by apply (bool_decide_unpack _)|done].
    - do 3 right. left. split; [by apply (bool_decide_unpack _)|done]. }
  clearbody o.
  destruct (truthy (own options "indexes")); [|by intros [= <-]].
  destruct (gt_zero (own (own options "indexes") "length")) as [[]|] eqn:Hlen; [| |done];
    cbn [mbind result_bind]; [|by intros [= <-]].
  destruct (own options "indexes") as [| | | | |l|] eqn:Hix; try done.
  destruct (array_map (VArr l) _) as [l'|] eqn:Hmap; [|done]. cbn [mbind result_bind].
  intros [= <-]. apply holds_set; [done|]. do 5 right. split; [done|].
  exists l'. split; [done|]. intros ->.
  destruct l as [|x l]; [done|]. simpl in Hmap.
  destruct (yamlIndex x); simpl in Hmap; [|done].
  destruct (mapM _ _); simpl in Hmap; done.
Qed.

Lemma yamlAttribute_outcome (prop : value) (k : string) :
  is_Ok (yamlAttribute prop k)
  = (if String.eqb k "enum" || String.eqb k "targets" then iterableOrAbsent (own prop k) else true)
  ∧ (∀ e, yamlAttribute prop k = Throw e → ∃ msg, e = TypeError msg).
Proof.
  unfold yamlAttribute.
  destruct (String.eqb k "enum" || String.eqb k "targets"); destruct (own prop k);
    simpl; split; try done; intros ? [= <-]; by eexists.
Qed.

Lemma mapM_is_Ok {A B} (f : A → result B) (l : list A) :
  is_Ok (mapM f l) = forallb (λ x, is_Ok (f x)) l.
Proof.
  induction l as [|x l IH]; [done|]. cbn [mapM forallb].
  destruct (f x) as [y|]; [|done]. cbn [mbind result_bind is_Ok andb].
  rewrite <- IH. by destruct (mapM f l).
Qed.

Lemma forallb_ext_in {A} (f g : A → bool) (l : list A) :
  (∀ x, f x = g x) → forallb f l = forallb g l.
Proof. intros Hfg. induction l as [|x l IH]; [done|]. simpl. by rewrite Hfg, IH. Qed.

Lemma spread_attributes (P : string → bool) :
  forallb (λ k, if String.eqb k "enum" || String.eqb k "targets" then P k else true)
    optional_attributes
  = P "enum" && P "targets".
Proof. unfold optional_attributes. cbn. by rewrite andb_true_r. Qed.

(** X6. [propertySnapshotToYaml] returns exactly when the property is
    neither [null] nor [undefined] and each of [enum] and [targets] is
    [undefined], an array or a string; every error it throws is a
    [TypeError]. *)
Theorem propertySnapshotToYaml_throws_iff (prop : value) :
  is_Ok (propertySnapshotToYaml prop)
  = negb (nullish prop)
    && (iterableOrAbsent (own prop "enum") && iterableOrAbsent (own prop "targets"))
  ∧ (∀ e, propertySnapshotToYaml prop = Throw e → ∃ msg, e = TypeError msg).
Proof.
  unfold propertySnapshotToYaml, get. destruct (nullish prop).
  { split; [done|]. intros ? [= <-]. by eexists. }
  cbn [mbind result_bind negb andb].
  rewrite <- (spread_attributes (λ k, iterableOrAbsent (own prop k))).
  rewrite <- (forallb_ext_in (λ k, is_Ok (yamlAttribute prop k)))
    by (intros k; apply yamlAttribute_outcome).
  rewrite <- mapM_is_Ok.
  destruct (mapM (yamlAttribute prop) optional_attributes) as [rest|e] eqn:Hrest.
  - done.
  - split; [done|]. intros ? [= <-].
    apply mapM_throws in Hrest as (k & _ & Hk). by apply (yamlAttribute_outcome prop k).
Qed.

(** ** The whole collection, again *)

Lemma snapshotLoop_throws_iff (es acc : obj) :
  is_Ok (snapshotLoop es acc) = forallb (λ e : string * value, normalizable e.2) es
  ∧ (∀ e, snapshotLoop es acc = Throw e → ∃ msg, e = TypeError msg).
Proof.
  revert acc. induction es as [|[name schema] es IH]; intros acc; [done|].
  cbn [snapshotLoop forallb snd].
  destruct (schemaToSnapshot_outcome schema) as [Hok Herr].
  rewrite <- Hok. destruct (schemaToSnapshot schema) as [s|e]; simpl.
  - apply IH.
  - split; [done|]. intros ? [= <-]. by apply Herr.
Qed.

(** X7. [schemasToSnapshot] is all or nothing: it returns exactly when
    every schema of the collection is [normalizable] (the schema and each
    of its properties and explicit indexes are neither [null] nor
    [undefined], [properties] is falsy or enumerable, [indexes] and
    [unique] are absent or arrays), and every error it throws is a
    [TypeError]. *)
Theorem schemasToSnapshot_throws_iff (schemas : obj) :
  is_Ok (schemasToSnapshot schemas)
  = forallb (λ e : string * value, normalizable e.2) schemas
  ∧ (∀ e, schemasToSnapshot schemas = Throw e → ∃ msg, e = TypeError msg).
Proof. apply snapshotLoop_throws_iff. Qed.

Lemma snapshotLoop_normal (es acc snap : obj) :
  snapshotLoop es acc = Ok snap →
  ordinaryKeys acc →
  Forall (λ e : string * value, schemaToSnapshot e.2 = Ok e.2) acc →
  ordinaryKeys snap ∧ Forall (λ e : string * value, schemaToSnapshot e.2 = Ok e.2) snap.
Proof.
  revert acc. induction es as [|[k p] es IH]; intros acc; simpl.
  - by intros [= <-].
  - destruct (schemaToSnapshot p) as [q|] eqn:Hq; simpl; [|done].
    intros Hloop Hacc Hfix. apply (IH _ Hloop).
    + by apply obj_set_ordinary.
    + apply (obj_set_values (λ v, schemaToSnapshot v = Ok v)); [done|].
      by eapply schemaToSnapshot_fixed.
Qed.

Lemma snapshotLoop_fixed (es acc : obj) :
  ordinaryKeys (acc ++ es) →
  Forall (λ e : string * value, schemaToSnapshot e.2 = Ok e.2) es →
  snapshotLoop es acc = Ok (acc ++ es).
Proof.
  revert acc. induction es as [|[k p] es IH]; intros acc Hord Hfix; simpl.
  - by rewrite app_nil_r.
  - apply Forall_cons in Hfix as [Hp Hfix]. simpl in Hp. rewrite Hp. simpl.
    destruct Hord as [Hnd Hproto].
    assert (obj_set acc k p = acc ++ [(k, p)]) as ->.
    { unfold obj_set. unfold obj_keys in *. rewrite fmap_app in Hnd, Hproto. simpl in *.
      rewrite (proj2 (String.eqb_neq k "__proto__")).
      - apply obj_put_fresh. apply NoDup_app in Hnd as (_ & Hnd & _).
        intros Hin. apply (Hnd _ Hin). by left.
      - intros ->. apply Hproto. apply elem_of_app. right. by left. }
    rewrite (IH (acc ++ [(k, p)])); [by rewrite <- app_assoc| |done].
    split; by rewrite <- app_assoc.
Qed.

(** X8. [schemasToSnapshot] is idempotent: a snapshot collection it
    returned is its own snapshot. *)
Theorem schemasToSnapshot_idempotent (schemas snap : obj) :
  schemasToSnapshot schemas = Ok snap → schemasToSnapshot snap = Ok snap.
Proof.
  intros Hsnap.
  destruct (snapshotLoop_normal _ _ _ Hsnap ordinaryKeys_nil) as [Hord Hfix]; [done|].
  by apply (snapshotLoop_fixed snap []).
Qed.

Lemma elem_of_obj_keys_set (o : obj) (k : string) (v : value) (x : string) :
  x ∈ obj_keys (obj_set o k v) ↔ x ∈ obj_keys o ∨ (x = k ∧ k ≠ "__proto__").
Proof.
  unfold obj_set. destruct (String.eqb_spec k "__proto__") as [->|Hne].
  - split; [by left|]. by intros [?|[_ ?]].
  - rewrite obj_keys_put. case_bool_decide as Hin.
    + split; [by left|]. intros [?|[-> _]]; done.
    + rewrite elem_of_app, list_elem_of_singleton. split.
      * intros [? | ->]; [by left|right; by split].
      * intros [?|[-> _]]; [by left|by right].
Qed.

Lemma snapshotLoop_names (es acc snap : obj) :
  snapshotLoop es acc = Ok snap →
  ∀ name, name ∈ obj_keys snap
          ↔ name ∈ obj_keys acc ∨ (name ∈ obj_keys es ∧ name ≠ "__proto__").
Proof.
  revert acc. induction es as [|[k p] es IH]; intros acc; simpl.
  - intros [= <-] name. split; [by left|]. intros [?|[[]%elem_of_nil _]]. done.
  - destruct (schemaToSnapshot p) as [q|] eqn:Hq; simpl; [|done].
    intros Hloop name. rewrite (IH _ Hloop), elem_of_obj_keys_set, elem_of_cons.
    split.
    + intros [[?|[-> ?]]|[? ?]]; auto.
    + intros [?|[[-> | ?] ?]]; auto.
Qed.

(** X9. The snapshot has one entry per schema name, and the names are
    those of the collection except [__proto__]: an assignment to that key
    sets the prototype of the snapshot object and adds no entry. *)
Theorem schemasToSnapshot_names (schemas snap : obj) :
  schemasToSnapshot schemas = Ok snap →
  NoDup (obj_keys snap)
  ∧ ∀ name, name ∈ obj_keys snap ↔ name ∈ obj_keys schemas ∧ name ≠ "__proto__".
Proof.
  intros Hsnap. split.
  - by destruct (snapshotLoop_normal _ _ _ Hsnap ordinaryKeys_nil) as [[Hnd _] _].
  - intros name. rewrite (snapshotLoop_names _ _ _ Hsnap). split; [|by right].
    by intros [[]%elem_of_nil|?].
Qed.

(** ** File and migration names *)

Lemma endsWith_true (f suf : string) :
  endsWith f suf = true ↔ ∃ name, f = name +:+ suf.
Proof.
  unfold endsWith. split.
  - intros [name Hname]%bool_decide_eq_true_1. exists name. by apply strip_suffix_Some.
  - intros [name ->]. rewrite strip_suffix_app. by apply bool_decide_eq_true_2.
Qed.

(** X10. The file filter and the name pattern of [discardChanges]
    agree: a file passes the filter exactly when it is some name followed
    by [.yaml] or [.yml], the pattern then strips exactly that extension,
    and it leaves every other file name as it is. *)
Theorem schema_file_names (f : string) :
  (isYamlFile f = true ↔ ∃ name, f = name +:+ ".yaml" ∨ f = name +:+ ".yml")
  ∧ (isYamlFile f = true →
       f = schemaNameOf f +:+ ".yaml" ∨ f = schemaNameOf f +:+ ".yml")
  ∧ (isYamlFile f = false → schemaNameOf f = f).
Proof.
  assert (isYamlFile f = true ↔ ∃ name, f = name +:+ ".yaml" ∨ f = name +:+ ".yml") as Hiff.
  { unfold isYamlFile. rewrite orb_true_iff, !endsWith_true. split.
    - intros [[name ->]|[name ->]]; exists name; auto.
    - intros [name [-> | ->]]; [left|right]; by exists name. }
  split; [done|]. split.
  - intros [name [-> | ->]]%Hiff.
    + left. by rewrite schemaNameOf_yaml.
    + right. by rewrite schemaNameOf_yml.
  - intros Hno. unfold schemaNameOf.
    destruct (strip_suffix ".yaml" f) as [name|] eqn:Hyaml.
    { apply strip_suffix_Some in Hyaml. rewrite (proj2 Hiff) in Hno; [done|]. exists name. auto. }
    destruct (strip_suffix ".yml" f) as [name|] eqn:Hyml; [|done].
    apply strip_suffix_Some in Hyml. rewrite (proj2 Hiff) in Hno; [done|]. exists name. auto.
Qed.

Lemma removeSeparators_app (a b : string) :
  removeSeparators (a +:+ b) = removeSeparators a +:+ removeSeparators b.
Proof.
  induction a as [|c a IH]; [done|].
  change (String c a +:+ b) with (String c (a +:+ b)). cbn [removeSeparators].
  case_bool_decide; [done|].
  change (String c (removeSeparators a) +:+ removeSeparators b)
    with (String c (removeSeparators a +:+ removeSeparators b)).
  by rewrite IH.
Qed.

Lemma removeSeparators_plain (s : string) : plain s → removeSeparators s = s.
Proof.
  unfold plain. induction s as [|c s IH]; [done|]. simpl.
  intros [Hc Hs]%Forall_cons. unfold separator in Hc.
  rewrite bool_decide_eq_false_2 by done. by rewrite IH.
Qed.

Lemma substring_prefix (a b : string) :
  String.substring 0 (String.length a) (a +:+ b) = a.
Proof.
  induction a as [|c a IH]; [by destruct b|].
  change (String c (String.substring 0 (String.length a) (a +:+ b)) = String c a).
  by rewrite IH.
Qed.

Lemma string_app_assoc (a b c : string) : (a +:+ b) +:+ c = a +:+ (b +:+ c).
Proof.
  induction a as [|x a IH]; [done|].
  change (String x ((a +:+ b) +:+ c) = String x (a +:+ (b +:+ c))). by rewrite IH.
Qed.

Lemma migrationName_prefix (stamp rest : string) :
  String.length stamp = 14 →
  String.substring 0 14 (stamp +:+ rest) +:+ "_omnify_migration"
  = stamp +:+ "_omnify_migration".
Proof. intros <-. by rewrite substring_prefix. Qed.

(** X11. The migration name of an ISO timestamp is its fourteen date and
    time digits followed by [_omnify_migration]: the separators are
    removed and everything after the seconds is cut off. *)
Theorem migrationName_of_iso (y mo d h mi s rest : string) :
  plain y → plain mo → plain d → plain h → plain mi → plain s →
  String.length (y +:+ mo +:+ d +:+ h +:+ mi +:+ s) = 14 →
  migrationName (y +:+ "-" +:+ mo +:+ "-" +:+ d +:+ "T" +:+ h +:+ ":" +:+ mi +:+ ":" +:+ s
                 +:+ rest)
  = (y +:+ mo +:+ d +:+ h +:+ mi +:+ s) +:+ "_omnify_migration".
Proof.
  intros Hy Hmo Hd Hh Hmi Hs Hlen. unfold migrationName.
  assert (removeSeparators
            (y +:+ "-" +:+ mo +:+ "-" +:+ d +:+ "T" +:+ h +:+ ":" +:+ mi +:+ ":" +:+ s +:+ rest)
          = (y +:+ mo +:+ d +:+ h +:+ mi +:+ s) +:+ removeSeparators rest) as ->.
  { rewrite !removeSeparators_app.
    rewrite (removeSeparators_plain _ Hy), (removeSeparators_plain _ Hmo),
      (removeSeparators_plain _ Hd), (removeSeparators_plain _ Hh),
      (removeSeparators_plain _ Hmi), (removeSeparators_plain _ Hs).
    by rewrite !string_app_assoc. }
  by apply migrationName_prefix.
Qed.

(** ** Effects of the service *)

Section ServiceEffects.

Context {S C : Type} `{!Store.VersionStore S} `{!Files C}.

Implicit Types (sv : Service) (w : World (S:=S) (C:=C)).

(** X13. [createVersion] never touches the schema files, and it changes
    the version store through one call only: the store's [createVersion]
    with the normalised snapshot of the loaded schemas, a non-empty change
    list, driver ['mysql'], the migration name of the clock and the given
    description.  On every other path the store is left as it was. *)
Theorem createVersion_store_effect sv (description : option string) w :
  let w' := (createVersion sv description w).2 in
  files w' = files w
  ∧ (versions w' = versions w
     ∨ ∃ dir opts schemas snap,
         schemasDir sv = Some dir ∧ store sv = Some opts
         ∧ loadSchemas dir (files w) = Ok schemas
         ∧ schemasToSnapshot schemas = Ok snap
         ∧ computeChanges (Store.readLatestVersion opts (versions w)) snap ≠ []
         ∧ versions w' =
             (Store.createVersion opts (versions w) snap
                (computeChanges (Store.readLatestVersion opts (versions w)) snap)
                {| metaDriver := "mysql"; metaMigration := migrationName (clock w);
                   metaDescription := description |}).2).
Proof.
  unfold createVersion, requireSchemasDir, getStore, mbind, M_bind, mret, M_ret, throw,
    store_read, io_loadSchemas, lift, io_now, store_createVersion.
  destruct (schemasDir sv) as [dir|]; [|by split; [|left]].
  destruct (String.eqb dir ""); [by split; [|left]|].
  destruct (store sv) as [opts|]; [|by split; [|left]].
  destruct (loadSchemas dir (files w)) as [schemas|] eqn:Hload; [|by split; [|left]].
  destruct (schemasToSnapshot schemas) as [snap|] eqn:Hsnap; [|by split; [|left]].
  cbn [versions files clock log].
  destruct (computeChanges _ snap) as [|c cs] eqn:Hchs; [by split; [|left]|].
  cbn -[migrationName].
  destruct (Store.createVersion _ _ _ _ _) as [[vf|e] vs'] eqn:Hstore; cbn; split; try done;
    right; exists dir, opts, schemas, snap; rewrite Hchs, Hstore; by repeat split.
Qed.

End ServiceEffects.

Section NewVersions.

Context {S C : Type} `{!Store.VersionStore S} `{!Files C}.

Implicit Types (sv : Service) (w : World (S:=S) (C:=C)).

(** X14. [createVersion] agrees with [getPendingChanges] on the same
    state: where the latter throws, so does the former, with the same
    error; where it reports no changes, [createVersion] throws
    ['No changes to create version']; and where it reports changes,
    [createVersion] hands exactly these changes to the store and returns
    the stored version's number, migration (the generated name when the
    store returns none) and changes, or rethrows the store's error. *)
Theorem createVersion_agrees_with_pending sv (description : option string) w :
  match (getPendingChanges sv w).1 with
  | Throw e => (createVersion sv description w).1 = Throw e
  | Ok pending =>
      if hasChanges pending then
        ∃ opts snap,
          store sv = Some opts
          ∧ length (obj_keys snap) = currentSchemaCount pending
          ∧ (createVersion sv description w).1 =
              match (Store.createVersion opts (versions w) snap (pendingChanges pending)
                       {| metaDriver := "mysql"; metaMigration := migrationName (clock w);
                          metaDescription := description |}).1 with
              | Ok versionFile =>
                  Ok {| createdVersion := version versionFile;
                        createdMigration :=
                          default (migrationName (clock w)) (migration versionFile);
                        createdChanges := Version.changes versionFile |}
              | Throw e => Throw e
              end
      else (createVersion sv description w).1 = Throw (Error "No changes to create version")
  end.
Proof.
  unfold createVersion, getPendingChanges, requireSchemasDir, getStore, mbind, M_bind,
    mret, M_ret, throw, store_read, io_loadSchemas, lift, io_now, store_createVersion.
  destruct (schemasDir sv) as [dir|]; [|done].
  destruct (String.eqb dir ""); [done|].
  destruct (store sv) as [opts|]; [|done].
  destruct (loadSchemas dir (files w)) as [schemas|]; [|done].
  destruct (schemasToSnapshot schemas) as [snap|]; [|done].
  cbn [versions files clock log fst hasChanges pendingChanges currentSchemaCount].
  destruct (computeChanges _ snap) as [|c cs]; [done|].
  cbn -[migrationName]. exists opts, snap. split; [done|]. split; [done|].
  by destruct (Store.createVersion _ _ _ _ _) as [[vf|e] vs'].
Qed.

End NewVersions.

Section Discard.

Context {S C : Type} `{!Store.VersionStore S} `{!Files C}.

Implicit Types (sv : Service) (w : World (S:=S) (C:=C)).

Lemma restoreLoop_fails (dir : string) (es1 es2 : obj) (name : string)
    (s : value) (e : error) (n : nat) w :
  directory w = true →
  Forall (λ e : string * value, is_Ok (snapshotToYaml e.2) = true) es1 →
  NoDup (obj_keys es1) →
  snapshotToYaml s = Throw e →
  ∃ w',
    restoreLoop dir (es1 ++ (name, s) :: es2) n w = (Throw e, w')
    ∧ (∀ name' s', (name', s') ∈ es1 →
         ∃ doc, snapshotToYaml s' = Ok doc
                ∧ files w' !! (name' +:+ ".yaml") = Some (stringify doc))
    ∧ (∀ f, (∀ name', name' ∈ obj_keys es1 → f ≠ name' +:+ ".yaml") →
         files w' !! f = files w !! f).
Proof.
  intros Hdir Hok Hnd Hs. revert n w Hdir.
  induction es1 as [|[name1 s1] es1 IH]; intros n w Hdir.
  - exists w. cbn [app restoreLoop]. unfold mbind, M_bind, lift. rewrite Hs.
    split; [done|]. split; [|done]. intros ?? Hin. by apply elem_of_nil in Hin.
  - apply Forall_cons in Hok as [Hs1 Hok]. simpl in Hs1, Hnd.
    apply NoDup_cons in Hnd as [Hname Hnd].
    destruct (snapshotToYaml s1) as [doc|] eqn:Hdoc; [|done].
    cbn [app restoreLoop]. unfold mbind, M_bind, lift. rewrite Hdoc.
    unfold io_writeFile. rewrite Hdir. set (w1 := log _ _).
    destruct (IH Hok Hnd (n + 1) w1 Hdir) as (w' & -> & Hwritten & Hframe).
    exists w'. split; [done|]. split.
    + intros name' s' [[= -> ->]|Hin]%elem_of_cons; [|by apply Hwritten].
      exists doc. split; [done|]. rewrite Hframe.
      * apply lookup_insert_eq.
      * intros name' Hin Heq%string_app_inj_r. by subst.
    + intros f Hf. rewrite Hframe.
      * apply lookup_insert_ne. intros Heq. apply (Hf name1); [by left|done].
      * intros name' Hin. apply Hf. by right.
Qed.

(** X16. [discardChanges] is not atomic: in an existing schemas
    directory, when [snapshotToYaml] throws on a schema of the latest
    snapshot, [discardChanges] throws that error after having written the
    files of the schemas before it; the other files are as they were, so
    nothing has been deleted. *)
Theorem discardChanges_stops_at_bad_schema sv dir opts w (latest : VersionFile)
    (es1 es2 : obj) (name : string) (s : value) (e : error) :
  initialised sv dir opts →
  Store.readLatestVersion opts (versions w) = Some latest →
  directory w = true →
  snapshot latest = es1 ++ (name, s) :: es2 →
  Forall (λ e : string * value, is_Ok (snapshotToYaml e.2) = true) es1 →
  NoDup (obj_keys es1) →
  snapshotToYaml s = Throw e →
  ∃ w',
    discardChanges sv w = (Throw e, w')
    ∧ (∀ name' s', (name', s') ∈ es1 →
         ∃ doc, snapshotToYaml s' = Ok doc
                ∧ files w' !! (name' +:+ ".yaml") = Some (stringify doc))
    ∧ (∀ f, (∀ name', name' ∈ obj_keys es1 → f ≠ name' +:+ ".yaml") →
         files w' !! f = files w !! f).
Proof.
  intros Hinit Hlatest Hdir Hsplit Hok Hnd Hs. unfold discardChanges, mbind, M_bind.
  rewrite (requireSchemasDir_initialised _ _ _ _ Hinit).
  rewrite (getStore_initialised _ _ _ _ Hinit).
  unfold store_read. rewrite Hlatest. unfold io_readdir. cbn [files directory log].
  rewrite Hdir. set (w2 := log (Readdir dir) _). rewrite Hsplit.
  destruct (restoreLoop_fails dir es1 es2 name s e 0 w2 Hdir Hok Hnd Hs)
    as (w' & -> & Hwritten & Hframe).
  by exists w'.
Qed.


(** X18. Discarding twice is discarding once: after a successful
    [discardChanges] (the schemas directory exists, the names are
    distinct, every schema converts) a second one restores the same number
    of schemas, deletes nothing and leaves the files as the first left
    them. *)
Theorem discardChanges_idempotent sv dir opts w (latest : VersionFile) :
  initialised sv dir opts →
  Store.readLatestVersion opts (versions w) = Some latest →
  directory w = true →
  NoDup (obj_keys (snapshot latest)) →
  Forall (λ e : string * value, is_Ok (snapshotToYaml e.2) = true) (snapshot latest) →
  ∃ r w' w'',
    discardChanges sv w = (Ok r, w')
    ∧ discardChanges sv w' = (Ok {| restored := restored r; deleted := 0 |}, w'')
    ∧ files w'' = files w'.
Proof.
  intros Hinit Hlatest Hdir Hnd Hok.
  destruct (discardChanges_run _ _ _ _ _ Hinit Hlatest Hdir Hnd Hok)
    as (w' & Hrun & Hv & Hdir' & Hwritten & Hdeleted & Hframe).
  rewrite <- Hv in Hlatest.
  destruct (discardChanges_run _ _ _ _ _ Hinit Hlatest Hdir' Hnd Hok)
    as (w'' & Hrun' & _ & _ & Hwritten' & _ & Hframe').
  assert (staleFiles (snapshot latest) (files w') = []) as Hnone.
  { apply elem_of_nil_inv. intros f (Hf & Hyaml & Hname)%elem_of_staleFiles.
    destruct (decide (f ∈ staleFiles (snapshot latest) (files w))) as [Hs|Hs].
    - rewrite (Hdeleted _ Hs) in Hf. by destruct Hf.
    - rewrite Hframe in Hf; [|done|].
      + apply Hs. by apply elem_of_staleFiles.
      + intros name Hin ->. by rewrite schemaNameOf_yaml in Hname. }
  rewrite Hnone in Hrun', Hframe'.
  eexists _, w', w''. split; [exact Hrun|]. split; [exact Hrun'|].
  apply map_eq. intros f.
  destruct (decide (Exists (λ name, f = name +:+ ".yaml") (obj_keys (snapshot latest))))
    as [Hex|Hnex].
  - apply Exists_exists in Hex as (name & [[n s] [-> Hin]]%list_elem_of_fmap & ->).
    destruct (Hwritten _ _ Hin) as (doc & Hdoc & Hf).
    destruct (Hwritten' _ _ Hin) as (doc' & Hdoc' & Hf'). simpl.
    rewrite Hf, Hf'. congruence.
  - apply Hframe'; [apply not_elem_of_nil|].
    intros name Hin Heq. apply Hnex, Exists_exists. by exists name.
Qed.

(** X19. An empty schemas directory counts as none: after
    [initVersionStore baseDir ''] the three operations that need the
    directory throw ['Schemas directory not initialized'] without any
    effect, while the read delegations reach the store. *)
Theorem empty_schemas_dir_is_uninitialised (baseDir : string) w
    (description : option string) :
  let sv := initVersionStore baseDir "" in
  let noDir := Error "Schemas directory not initialized" in
  getPendingChanges sv w = (Throw noDir, w)
  ∧ createVersion sv description w = (Throw noDir, w)
  ∧ discardChanges sv w = (Throw noDir, w)
  ∧ (listVersions sv w).1
    = Ok (Store.listVersions {| baseDir := baseDir; maxVersions := 100 |} (versions w)).
Proof. repeat split. Qed.

End Discard.

(** ** The theorems at the reference instance *)

Module Witnesses.

Import Reference.

Lemma service_initialised : initialised service "/app/schemas" storeOptions.
Proof. by apply initVersionStore_initialised. Defined.

Example normalise_user : schemaToSnapshot userSchema = Ok userSnapshot.
Proof. reflexivity. Qed.

Example load_user :
  loadSchemas "/app/schemas" ({[ "User.yaml" := userDocument ]} : gmap string value)
  = Ok [("User", userSchema)].
Proof. vm_compute. reflexivity. Qed.

Example create_first_version :
  (createVersion service None (world [] {[ "User.yaml" := userDocument ]})).1
  = Ok {| createdVersion := 1;
          createdMigration := "20251228100000_omnify_migration";
          createdChanges := [schemaAdded "User"] |}.
Proof. vm_compute. reflexivity. Qed.

Example restore_user : snapshotToYaml userSnapshot = Ok restoredUserDocument.
Proof. reflexivity. Qed.

(** An object schema comes back as it was stored. *)
Example discard_user_then_normalise :
  ∃ r w',
    discardChanges service (world [version1] ∅) = (Ok r, w')
    ∧ (schemas ← loadSchemas "/app/schemas" (files w'); schemasToSnapshot schemas)
      = Ok (snapshot version1).
Proof. eexists _, _. split; vm_compute; reflexivity. Qed.

(** A pivot schema comes back as an object schema. *)
Example discard_pivot_then_normalise :
  ∃ r w',
    discardChanges service (world [pivotVersion] ∅) = (Ok r, w')
    ∧ (schemas ← loadSchemas "/app/schemas" (files w'); schemasToSnapshot schemas)
      = Ok [("RoleUser",
             VObj [ ("name", VStr "RoleUser"); ("kind", VStr "object");
                    ("properties",
                     VObj [ ("role_id", VObj [("type", VStr "Int")]);
                            ("user_id", VObj [("type", VStr "Int")]) ]) ])].
Proof. eexists _, _. split; vm_compute; reflexivity. Qed.

Lemma options_elide_defaults_witness :
  schemaToSnapshot defaultsSchema = Ok defaultsSnapshot
  ∧ snapshotField defaultsSnapshot "options" = None
  ∧ (∀ k d v, (k, d) ∈ elidedDefaults → snapshotOption userSnapshot k = Some v →
       v = optget (own userSchema "options") k ∧ v ≠ d).
Proof.
  split; [reflexivity|]. split.
  - apply (options_elide_defaults defaultsSchema defaultsSnapshot eq_refl).
    intros k. reflexivity.
  - apply (options_elide_defaults userSchema userSnapshot eq_refl).
Defined.



Lemma getPendingChanges_empty_witness :
  (getPendingChanges service (world [] ∅)).1 =
  Ok {| hasChanges := false; pendingChanges := []; currentSchemaCount := 0;
        previousSchemaCount := 0; latestVersion := None |}.
Proof.
  apply (getPendingChanges_empty service "/app/schemas" storeOptions (world [] ∅)).
  - exact service_initialised.
  - vm_compute. reflexivity.
  - reflexivity.
Defined.

Lemma load_nothing : loadSchemas "/app/schemas" (files (world [] ∅)) = Ok [].
Proof. vm_compute. reflexivity. Defined.

Lemma load_user_again :
  loadSchemas "/app/schemas" (files (world [version1] {[ "User.yaml" := userDocument ]}))
  = Ok [("User", userSchema)].
Proof. vm_compute. reflexivity. Defined.

Lemma createVersion_without_changes_witness :
  (∃ w', createVersion service None (world [] ∅) =
           (Throw (Error "No changes to create version"), w')
         ∧ versions w' = [] ∧ files w' = ∅)
  ∧ (∃ w', createVersion service None (world [version1] {[ "User.yaml" := userDocument ]}) =
             (Throw (Error "No changes to create version"), w')
           ∧ versions w' = [version1]
           ∧ files w' = {[ "User.yaml" := userDocument ]}).
Proof.
  split.
  - destruct (createVersion_without_changes service "/app/schemas" storeOptions
                (world [] ∅) [] [] None service_initialised load_nothing eq_refl)
      as (_ & Hempty & _).
    by apply Hempty.
  - destruct (createVersion_without_changes service "/app/schemas" storeOptions
                (world [version1] {[ "User.yaml" := userDocument ]})
                [("User", userSchema)] [("User", userSnapshot)] None
                service_initialised load_user_again eq_refl)
      as (_ & _ & Hsame).
    by apply (Hsame version1).
Defined.

Lemma latest_version1 :
  Store.readLatestVersion storeOptions (versions staleWorld) = Some version1.
Proof. reflexivity. Defined.

Lemma version1_restorable :
  Forall (λ e : string * value, is_Ok (snapshotToYaml e.2) = true) (snapshot version1).
Proof. by repeat constructor. Defined.



Lemma discardChanges_returns_on_staleWorld :
  (discardChanges service staleWorld).1 = Ok {| restored := 1; deleted := 1 |}.
Proof. vm_compute. reflexivity. Defined.

Lemma discardChanges_keeps_yml_witness :
  files (discardChanges service staleWorld).2 !! "User.yml" = Some (VStr "edited")
  ∧ files (discardChanges service staleWorld).2 !! "User.yaml" = Some restoredUserDocument.
Proof.
  destruct (discardChanges_keeps_yml service "/app/schemas" storeOptions staleWorld
              version1 service_initialised latest_version1)
    as (_ & Hkept & Hrestored).
  split.
  - apply (Hkept "User" (VStr "edited")); [by left|reflexivity].
  - destruct (Hrestored _ discardChanges_returns_on_staleWorld (NoDup_singleton _)
                "User" userSnapshot) as (doc & Hdoc & Hyaml); [by left|].
    injection Hdoc as <-. exact Hyaml.
Defined.

(** When a schema of the snapshot does not convert, a schema after it
    that is stored as [User.yml] keeps that file and gets no
    [User.yaml]. *)
Lemma discardChanges_keeps_yml_counterexample :
  Store.readLatestVersion storeOptions
    (versions (world [brokenFirstVersion] {[ "User.yml" := VStr "edited" ]}))
  = Some brokenFirstVersion
  ∧ (discardChanges service
       (world [brokenFirstVersion] {[ "User.yml" := VStr "edited" ]})).1
    = Throw (TypeError "not iterable")
  ∧ files (discardChanges service
             (world [brokenFirstVersion] {[ "User.yml" := VStr "edited" ]})).2
      !! "User.yml" = Some (VStr "edited")
  ∧ files (discardChanges service
             (world [brokenFirstVersion] {[ "User.yml" := VStr "edited" ]})).2
      !! "User.yaml" = None.
Proof. repeat split; vm_compute; reflexivity. Qed.

(** A property with an unknown, a [null] and an [undefined] attribute. *)
Lemma propertyToSnapshot_copies_defined_witness :
  ∃ r : obj,
    propertyToSnapshot (VObj annotatedProperty) = Ok (VObj r)
    ∧ obj_lookup r "type" = Some (VStr "String")
    ∧ obj_lookup r "nullable" = Some VNull
    ∧ obj_lookup r "unique" = Some (VBool true)
    ∧ obj_lookup r "length" = None
    ∧ obj_lookup r "displayName" = None
    ∧ obj_lookup r "comment" = None.
Proof.
  destruct (propertyToSnapshot_copies_defined annotatedProperty)
    as (r & Hr & Htype & Hattribute & Hother).
  exists r. split; [exact Hr|]. split; [exact Htype|].
  split; [apply (Hattribute "nullable"); by apply (bool_decide_unpack _)|].
  split; [apply (Hattribute "unique"); by apply (bool_decide_unpack _)|].
  split; [apply (Hattribute "length"); by apply (bool_decide_unpack _)|].
  split; [apply (Hattribute "displayName"); by apply (bool_decide_unpack _)|].
  apply (Hother "comment"). by apply (proj1 (bool_decide_eq_false _)).
Defined.

Example propertyToSnapshot_annotated :
  propertyToSnapshot (VObj annotatedProperty)
  = Ok (VObj [ ("type", VStr "String"); ("nullable", VNull); ("unique", VBool true) ]).
Proof. reflexivity. Qed.

(** *** Further properties at the reference instance *)

Lemma schemaToSnapshot_reads_five_fields_witness :
  schemaToSnapshot annotatedUserSchema = schemaToSnapshot userSchema.
Proof.
  apply (schemaToSnapshot_reads_five_fields annotatedUserSchema userSchema eq_refl eq_refl).
  intros k Hk. unfold schemaFields in Hk.
  repeat (apply elem_of_cons in Hk as [-> | Hk]; [reflexivity|]).
  by apply elem_of_nil in Hk.
Defined.

Lemma schemasToSnapshot_idempotent_witness :
  schemasToSnapshot [("User", userSnapshot)] = Ok [("User", userSnapshot)].
Proof. apply (schemasToSnapshot_idempotent [("User", userSchema)]). reflexivity. Defined.

Lemma schemasToSnapshot_names_witness :
  schemasToSnapshot [("User", userSchema); ("__proto__", userSchema)]
  = Ok [("User", userSnapshot)]
  ∧ NoDup (obj_keys [("User", userSnapshot)])
  ∧ ∀ name, name ∈ obj_keys [("User", userSnapshot)]
            ↔ name ∈ obj_keys [("User", userSchema); ("__proto__", userSchema)]
              ∧ name ≠ "__proto__".
Proof.
  split; [reflexivity|].
  apply (schemasToSnapshot_names [("User", userSchema); ("__proto__", userSchema)]).
  reflexivity.
Defined.


Lemma snapshotToYaml_document_witness :
  ∃ fields : obj,
    restoredUserDocument = VObj fields
    ∧ obj_lookup fields "name" = None
    ∧ ∀ k v, obj_lookup fields k = Some v →
        k ∈ documentKeys ∧ (k = "kind" → v = VStr "enum").
Proof. apply (snapshotToYaml_document userSnapshot). reflexivity. Defined.

Lemma yamlOptions_never_default_witness :
  ∃ opts,
    yamlOptions (own userSnapshot "options") = Ok opts
    ∧ obj_keys opts = ["softDelete"; "indexes"]
    ∧ ∀ k v, obj_lookup opts k = Some v → nonDefaultOption k v.
Proof.
  exists [ ("softDelete", VBool true);
           ("indexes",
            VArr [VObj [ ("columns", VArr [VStr "email"]); ("unique", VBool true);
                         ("name", VStr "unique_0") ]]) ].
  split; [reflexivity|]. split; [reflexivity|].
  apply (yamlOptions_never_default (own userSnapshot "options")). reflexivity.
Defined.

Lemma latest_brokenVersion :
  Store.readLatestVersion storeOptions (versions (world [brokenVersion] ∅))
  = Some brokenVersion.
Proof. reflexivity. Defined.

Lemma discardChanges_stops_at_bad_schema_witness :
  ∃ w',
    discardChanges service (world [brokenVersion] ∅)
    = (Throw (TypeError "not iterable"), w')
    ∧ files w' !! "User.yaml" = Some restoredUserDocument
    ∧ files w' !! "Status.yaml" = None
    ∧ files w' !! "Role.yaml" = None.
Proof.
  destruct (discardChanges_stops_at_bad_schema service "/app/schemas" storeOptions
              (world [brokenVersion] ∅) brokenVersion
              [("User", userSnapshot)] [("Role", defaultsSnapshot)] "Status" brokenSnapshot
              (TypeError "not iterable") service_initialised latest_brokenVersion eq_refl
              eq_refl version1_restorable (NoDup_singleton _) eq_refl)
    as (w' & Hrun & Hwritten & Hframe).
  exists w'. split; [exact Hrun|]. split.
  - destruct (Hwritten "User" userSnapshot) as (doc & Hdoc & Hfile); [by left|].
    injection Hdoc as <-. exact Hfile.
  - split.
    + rewrite Hframe; [exact (lookup_empty _)|].
      intros name Hin. apply list_elem_of_singleton in Hin as ->. discriminate.
    + rewrite Hframe; [exact (lookup_empty _)|].
      intros name Hin. apply list_elem_of_singleton in Hin as ->. discriminate.
Defined.


Lemma discardChanges_idempotent_witness :
  ∃ r w' w'',
    discardChanges service staleWorld = (Ok r, w')
    ∧ discardChanges service w' = (Ok {| restored := restored r; deleted := 0 |}, w'')
    ∧ files w'' = files w'.
Proof.
  exact (discardChanges_idempotent service "/app/schemas" storeOptions staleWorld version1
           service_initialised latest_version1 eq_refl (NoDup_singleton _)
           version1_restorable).
Defined.

Lemma plain_digits :
  plain "2025" ∧ plain "12" ∧ plain "28" ∧ plain "10" ∧ plain "00".
Proof.
  unfold plain, separator. cbn [String.list_ascii_of_string].
  repeat split; repeat constructor; by apply (proj1 (bool_decide_eq_false _)).
Defined.

Lemma migrationName_of_iso_witness :
  migrationName "2025-12-28T10:00:00.000Z" = "20251228100000_omnify_migration".
Proof.
  destruct plain_digits as (Hy & Hmo & Hd & Hh & Hz).
  exact (migrationName_of_iso "2025" "12" "28" "10" "00" "00" ".000Z"
           Hy Hmo Hd Hh Hz Hz eq_refl).
Defined.

Lemma schemasToSnapshot_canonical_witness :
  schemasToSnapshot [("User", shuffledUserSchema)] = Ok [("User", userSnapshot)]
  ∧ Forall (λ e : string * value, canonical e.2) [("User", userSnapshot)].
Proof.
  split; [reflexivity|].
  apply (schemasToSnapshot_canonical [("User", shuffledUserSchema)]). reflexivity.
Defined.

End Witnesses.
